(** * DecisionAI scoring engine: [scoreOptions] and its weight blending

    A shallow embedding of the scoring engine of the DecisionAI web
    application ([loadWeights], [PERSONALITY_MODS] and [scoreOptions])
    together with the properties its specification states.

    Numbers.  JavaScript numbers are modelled as exact rationals extended
    with [NaN], [+Infinity] and [-Infinity].  The rounding of binary64
    arithmetic, its overflow and the sign of zero are not modelled: every
    arithmetic operation on finite operands is exact, division by zero and
    the indeterminate forms behave as in IEEE 754.  Where the program and
    this idealisation can part, the statements keep clear of it: a value
    that the program rounds is located between its decimal neighbours or
    up to a tolerance rather than fixed on a decimal tie, and statements
    that need every total to be a finite number carry the ranges of the
    attributes and weights that keep binary64 from overflowing.  Attribute
    values and stored weights come from JSON, hence are finite numbers or
    absent.

    Objects.  A weight object is read at the five criteria only and is a
    partial function on them.  [PERSONALITY_MODS] is an object literal, so
    a lookup by an arbitrary label also finds the members inherited from
    [Object.prototype].

    Control.  [scoreOptions] either returns its result or throws; the only
    statement that can throw on a list of options is the read of the first
    sorted entry. *)

From Stdlib Require Import QArith Qround Qabs ZArith List String Ascii Bool Lia Lqa.
From Stdlib Require Import Permutation Sorted.
Import ListNotations.

Local Open Scope Q_scope.

(** ** JavaScript numbers *)

Module JS.

Inductive number : Type :=
| Fin (q : Q)
| PInf
| NInf
| NaN.

(** A value read from a property: a number, or [undefined]/[null]. *)
Definition value := option number.

Definition is_zero (q : Q) : bool := Qeq_bool q 0.
Definition is_pos (q : Q) : bool := negb (Qle_bool q 0).
Definition is_neg (q : Q) : bool := negb (Qle_bool 0 q).

Definition neg (a : number) : number :=
  match a with
  | Fin q => Fin (- q)
  | PInf => NInf
  | NInf => PInf
  | NaN => NaN
  end.

Definition add (a b : number) : number :=
  match a, b with
  | NaN, _ | _, NaN => NaN
  | Fin x, Fin y => Fin (x + y)
  | PInf, NInf | NInf, PInf => NaN
  | PInf, _ | _, PInf => PInf
  | NInf, _ | _, NInf => NInf
  end.

Definition sub (a b : number) : number := add a (neg b).

(** Infinity scaled by a finite factor; [0 * Infinity] is [NaN]. *)
Definition scale_inf (positive : bool) (q : Q) : number :=
  if is_zero q then NaN
  else if Bool.eqb positive (is_pos q) then PInf else NInf.

Definition mul (a b : number) : number :=
  match a, b with
  | NaN, _ | _, NaN => NaN
  | Fin x, Fin y => Fin (x * y)
  | Fin x, PInf | PInf, Fin x => scale_inf true x
  | Fin x, NInf | NInf, Fin x => scale_inf false x
  | PInf, PInf | NInf, NInf => PInf
  | PInf, NInf | NInf, PInf => NInf
  end.

Definition div (a b : number) : number :=
  match a, b with
  | NaN, _ | _, NaN => NaN
  | Fin x, Fin y =>
      if is_zero y then
        (if is_zero x then NaN else if is_pos x then PInf else NInf)
      else Fin (x / y)
  | Fin _, PInf | Fin _, NInf => Fin 0
  | PInf, Fin y => if is_neg y then NInf else PInf
  | NInf, Fin y => if is_neg y then PInf else NInf
  | _, _ => NaN
  end.

(** [a <= b]; every comparison with [NaN] is false. *)
Definition leb (a b : number) : bool :=
  match a, b with
  | NaN, _ | _, NaN => false
  | NInf, _ => true
  | _, PInf => true
  | Fin x, Fin y => Qle_bool x y
  | _, _ => false
  end.

(** [a > 0]. *)
Definition gt0 (a : number) : bool :=
  match a with
  | Fin q => is_pos q
  | PInf => true
  | _ => false
  end.

Definition max2 (a b : number) : number :=
  match a, b with
  | NaN, _ | _, NaN => NaN
  | _, _ => if leb a b then b else a
  end.

Definition min2 (a b : number) : number :=
  match a, b with
  | NaN, _ | _, NaN => NaN
  | _, _ => if leb a b then a else b
  end.

(** [Math.max(...l)]: [-Infinity] for no argument, [NaN] if any is. *)
Definition Math_max (l : list number) : number := fold_left max2 l NInf.

(** [Math.min(...l)]. *)
Definition Math_min (l : list number) : number := fold_left min2 l PInf.

(** Truthiness of a property value: [undefined], [null], [0] and [NaN]
    are falsy. *)
Definition truthy (v : value) : bool :=
  match v with
  | None => false
  | Some (Fin q) => negb (is_zero q)
  | Some NaN => false
  | Some _ => true
  end.

(** [v || d] for a numeric default [d]. *)
Definition or (v : value) (d : number) : number :=
  match v with
  | Some n => if truthy v then n else d
  | None => d
  end.

(** [+x.toFixed(digits)]: the decimal with [digits] fraction digits
    closest to [x], the larger in magnitude on a tie; [toFixed] prints
    numbers of magnitude at least 10^21, [NaN] and the infinities as they
    are, and unary plus reads the string back.  The tie is that of the
    exact value: where a binary64 computation ends just beside a decimal
    tie (72.05 computed as 72.04999...) the program returns the other
    neighbour. *)
Definition toFixedQ (digits : nat) (x : Q) : Q :=
  if Qle_bool (inject_Z (10 ^ 21)) (Qabs x) then Qred x
  else
    let p := (10 ^ Z.of_nat digits)%Z in
    let n := Qfloor (Qabs x * inject_Z p + (1 # 2)) in
    Qred (inject_Z (if is_neg x then - n else n) / inject_Z p).

Definition toFixed (digits : nat) (a : number) : number :=
  match a with
  | Fin q => Fin (toFixedQ digits q)
  | _ => a
  end.

Definition finite (a : number) : Prop :=
  match a with Fin _ => True | _ => False end.

End JS.

(** Arithmetic of the source, written as in the source. *)
Declare Scope js_scope.
Delimit Scope js_scope with js.
Bind Scope js_scope with JS.number.
Coercion JS.Fin : Q >-> JS.number.
Infix "+" := JS.add : js_scope.
Infix "-" := JS.sub : js_scope.
Infix "*" := JS.mul : js_scope.
Infix "/" := JS.div : js_scope.
Infix "<=?" := JS.leb : js_scope.
Notation "v || d" := (JS.or v d) : js_scope.

(** ** The scoring engine *)

Module Engine.
Import JS.

(** Outcome of a call: a returned value or a thrown exception. *)
Inductive exception : Type := TypeError.

Inductive completion (A : Type) : Type :=
| Return (a : A)
| Throw (e : exception).
Arguments Return {A} a.
Arguments Throw {A} e.

(** The five criteria, the property names [cost], [time], [risk],
    [priority] and [reward] of a weight object. *)
Inductive key : Type := Cost | Time | Risk | Priority | Reward.

Definition keys : list key := [Cost; Time; Risk; Priority; Reward].

(** A weight object: the number stored under each criterion, if any. *)
Definition Weights := key -> option Q.

(** [obj[k]] as a property value. *)
Definition get (obj : Weights) (k : key) : value := option_map Fin (obj k).

Definition table (c t r p w : Q) : Weights :=
  fun k =>
    Some match k with
         | Cost => c | Time => t | Risk => r | Priority => p | Reward => w
         end.

Definition default_weights : Weights := table 0.25 0.20 0.25 0.15 0.15.

(** [loadWeights]: the stored weights, or the default table when local
    storage holds none. *)
Definition loadWeights (stored : option Weights) : Weights :=
  match stored with
  | Some w => w
  | None => default_weights
  end.

Definition conservative : Weights := table 0.25 0.15 0.40 0.10 0.10.
Definition balanced     : Weights := table 0.25 0.20 0.25 0.15 0.15.
Definition aggressive   : Weights := table 0.20 0.20 0.10 0.20 0.30.

(** Property names every object literal inherits from [Object.prototype].
    Each resolves to a function (or, for [__proto__], to the prototype
    object), which is truthy and has none of the five criteria. *)
Definition Object_prototype : list string :=
  ["constructor"; "__defineGetter__"; "__defineSetter__"; "hasOwnProperty";
   "__lookupGetter__"; "__lookupSetter__"; "isPrototypeOf";
   "propertyIsEnumerable"; "toString"; "valueOf"; "__proto__";
   "toLocaleString"]%string.

Definition inherited (name : string) : bool :=
  existsb (String.eqb name) Object_prototype.

(** [PERSONALITY_MODS[personality]]: an own table, an inherited member
    seen as an object without criteria, or [undefined]. *)
Definition PERSONALITY_MODS (personality : string) : option Weights :=
  if String.eqb personality "conservative" then Some conservative
  else if String.eqb personality "balanced" then Some balanced
  else if String.eqb personality "aggressive" then Some aggressive
  else if inherited personality then Some (fun _ => None)
  else None.

(** The first statements of [scoreOptions]: the personality table, the
    0.6/0.4 blend over [keys] and the division by the sum [t]. *)
Definition pick_mod (personality : option string) : Weights :=
  let personality :=
    match personality with Some p => p | None => "balanced"%string end in
  match PERSONALITY_MODS personality with
  | Some m => m
  | None => balanced
  end.

Definition blended (weights : Weights) (personality : option string)
  : key -> number :=
  let mod_ := pick_mod personality in
  fun k => ((get weights k || 0) * 0.6 + (get mod_ k || 0) * 0.4)%js.

Definition blend_sum (weights : Weights) (personality : option string)
  : number :=
  fold_left add (map (blended weights personality) keys) (Fin 0).

Definition blend (weights : Weights) (personality : option string)
  : key -> number :=
  let w := blended weights personality in
  let t := blend_sum weights personality in
  fun k => (w k / t)%js.

(** An option of a decision, as stored. *)
Record Option : Type := {
  id : string;
  label : option string;
  cost : option Q;
  time_required : option Q;
  risk_level : option Q;
  priority : option Q;
  reward_potential : option Q
}.

(** [o.field] as a property value. *)
Definition prop (field : Option -> option Q) (o : Option) : value :=
  option_map Fin (field o).

(** An entry of the breakdown; [rank] is assigned after sorting. *)
Record ScoredOption : Type := {
  option_id : string;
  slabel : option string;
  cost_score : number;
  time_score : number;
  risk_score : number;
  priority_score : number;
  reward_score : number;
  weighted_total : number;
  raw_risk : number;
  rank : option nat
}.

Inductive RiskLevel : Type := low | medium | high | critical.

Record AnalysisResult : Type := {
  breakdown : list ScoredOption;
  bestId : string;
  confidence : number;
  riskLevel : RiskLevel
}.

(** The callback of [options.map]. *)
Definition score (w : key -> number) (maxCost maxTime : number) (o : Option)
  : ScoredOption :=
  let cs := Math_max [Fin 0; 100 - ((prop cost o || 0) / maxCost) * 100]%js in
  let ts :=
    Math_max [Fin 0; 100 - ((prop time_required o || 0) / maxTime) * 100]%js in
  let rs := ((10 - (prop risk_level o || 5)) * 10)%js in
  let ps := ((prop priority o || 5) * 10)%js in
  let ws := ((prop reward_potential o || 5) * 10)%js in
  let total :=
    (cs * w Cost + ts * w Time + rs * w Risk + ps * w Priority
     + ws * w Reward)%js in
  {| option_id := id o;
     slabel := label o;
     cost_score := toFixed 2 cs;
     time_score := toFixed 2 ts;
     risk_score := toFixed 2 rs;
     priority_score := toFixed 2 ps;
     reward_score := toFixed 2 ws;
     weighted_total := toFixed 2 total;
     raw_risk := (prop risk_level o || 5)%js;
     rank := None |}.

(** The comparator [(a,b) => b.weighted_total - a.weighted_total]. *)
Definition compare (a b : ScoredOption) : number :=
  (weighted_total b - weighted_total a)%js.

(** [Array.prototype.sort] is stable: [a] moves behind [b] only when the
    comparator is positive ([NaN] counts as zero).  Here as an insertion
    sort, which every stable sort agrees with on a consistent comparator;
    the comparator is consistent whenever no total is [NaN], and where
    totals are [NaN] the order is left to the implementation. *)
Fixpoint insert (a : ScoredOption) (l : list ScoredOption)
  : list ScoredOption :=
  match l with
  | [] => [a]
  | b :: l' => if gt0 (compare a b) then b :: insert a l' else a :: l
  end.

Definition sort (l : list ScoredOption) : list ScoredOption :=
  fold_right insert [] l.

Definition set_rank (s : ScoredOption) (r : nat) : ScoredOption :=
  {| option_id := option_id s;
     slabel := slabel s;
     cost_score := cost_score s;
     time_score := time_score s;
     risk_score := risk_score s;
     priority_score := priority_score s;
     reward_score := reward_score s;
     weighted_total := weighted_total s;
     raw_risk := raw_risk s;
     rank := Some r |}.

(** [scored.forEach((s,i) => s.rank = i+1)], [i] counted from [i0]. *)
Fixpoint assign_ranks (i0 : nat) (l : list ScoredOption)
  : list ScoredOption :=
  match l with
  | [] => []
  | s :: l' => set_rank s (i0 + 1) :: assign_ranks (S i0) l'
  end.

Definition classify (raw : number) : RiskLevel :=
  if (raw <=? 2.5)%js then low
  else if (raw <=? 5)%js then medium
  else if (raw <=? 7.5)%js then high
  else critical.

Definition confidence_of (gap : number) : number :=
  toFixed 1 (Math_min [Fin 99; Math_max [Fin 50; 50 + (gap / 100) * 49]])%js.

(** The bindings of [scoreOptions], one definition each. *)
Definition maxCost (options : list Option) : number :=
  Math_max (map (fun o => prop cost o || 0)%js options ++ [Fin 1]).

Definition maxTime (options : list Option) : number :=
  Math_max (map (fun o => prop time_required o || 0)%js options ++ [Fin 1]).

Definition scored (options : list Option) (weights : Weights)
    (personality : option string) : list ScoredOption :=
  let w := blend weights personality in
  map (score w (maxCost options) (maxTime options)) options.

(** [scored] after [scored.sort(...)] and the assignment of the ranks. *)
Definition ranked (options : list Option) (weights : Weights)
    (personality : option string) : list ScoredOption :=
  assign_ranks 0 (sort (scored options weights personality)).

(** [scoreOptions(options, weights, personality = 'balanced')]; reading
    [scored[0].weighted_total] of an empty array throws a [TypeError], and
    [scored[1]?.weighted_total] is [undefined] when there is one entry. *)
Definition scoreOptions (options : list Option) (weights : Weights)
    (personality : option string) : completion AnalysisResult :=
  let scored := ranked options weights personality in
  match scored with
  | [] => Throw TypeError
  | best :: rest =>
      let gap :=
        (weighted_total best
         - (option_map weighted_total (hd_error rest) || 0))%js in
      Return {| breakdown := scored;
                bestId := option_id best;
                confidence := confidence_of gap;
                riskLevel := classify (raw_risk best) |}
  end.

End Engine.

Import JS Engine.

(** ** Predicates used by the statements *)

(** The blended vector sums to zero (the sum taken exactly). *)
Definition degenerate (weights : Weights) (personality : option string)
  : bool :=
  match blend_sum weights personality with
  | Fin t => is_zero t
  | _ => false
  end.

(** A label is usable when it is present and not empty. *)
Definition usable_label (o : Option) : bool :=
  match label o with
  | Some s => negb (String.eqb s "")
  | None => false
  end.

Definition same_attributes (o o' : Option) : Prop :=
  cost o = cost o' /\ time_required o = time_required o' /\
  risk_level o = risk_level o' /\ priority o = priority o' /\
  reward_potential o = reward_potential o'.

Definition attribute_identical (options : list Option) : Prop :=
  forall o o', In o options -> In o' options -> same_attributes o o'.

(** [clamp(x, lo, hi)] as the specification writes it. *)
Definition clamp (x lo hi : Q) : Q :=
  if Qle_bool x lo then lo else if Qle_bool hi x then hi else x.

(** Descending order of the weighted totals. *)
Definition above (a b : ScoredOption) : Prop :=
  (weighted_total b <=? weighted_total a)%js = true.

(** Entries whose weighted total is [t]. *)
Definition num_eqb (a b : number) : bool :=
  match a, b with
  | Fin x, Fin y => Qeq_bool x y
  | PInf, PInf | NInf, NInf | NaN, NaN => true
  | _, _ => false
  end.

Definition has_total (t : number) (s : ScoredOption) : bool :=
  num_eqb t (weighted_total s).

(** The threshold table of the specification on an input risk level. *)
Definition risk_table (r : Q) : RiskLevel :=
  if Qle_bool r 2.5 then low
  else if Qle_bool r 5 then medium
  else if Qle_bool r 7.5 then high
  else critical.

Definition all_finite (l : list ScoredOption) : Prop :=
  Forall (fun s => finite (weighted_total s)) l.

Definition nonzero (a : number) : Prop :=
  match a with Fin q => ~ q == 0 | _ => False end.

Create HintDb fin.

(** ** Inputs of the examples *)

(** An option with the given attributes. *)
Definition mk_option (i : string) (c t r p w : option Q) : Option :=
  {| id := i; label := Some i; cost := c; time_required := t;
     risk_level := r; priority := p; reward_potential := w |}.

(** The two options of the worked example of the specification. *)
Definition spec_option_1 : Option :=
  mk_option "1" (Some 0) (Some 0) (Some 0) (Some 10) (Some 10).

Definition spec_option_2 : Option :=
  mk_option "2" (Some 1000) (Some 100) (Some 10) (Some 0) (Some 0).

(** An option with risk level 0 and priority 0. *)
Definition zero_option : Option :=
  mk_option "1" (Some 10) (Some 1) (Some 0) (Some 0) (Some 5).

(** A single stored option without a label. *)
Definition lone_option : Option :=
  {| id := "1"; label := None; cost := Some 40; time_required := Some 2;
     risk_level := Some 3; priority := Some 7; reward_potential := Some 6 |}.

(** A stored weight object without any criterion, [{}]. *)
Definition no_weights : Weights := fun _ => None.

(** Stored weights with only [cost] set. *)
Definition cost_only : Weights :=
  fun k => match k with Cost => Some 1 | _ => None end.

Definition cheap_slow : Option :=
  mk_option "A" (Some 0) (Some 100) (Some 5) (Some 5) (Some 5).

Definition dear_fast : Option :=
  mk_option "B" (Some 100) (Some 0) (Some 5) (Some 5) (Some 5).

(** A second option with the attributes of [cheap_slow]. *)
Definition cheap_slow_twin : Option :=
  mk_option "C" (Some 0) (Some 100) (Some 5) (Some 5) (Some 5).

(** ** Values and ranges used by the further properties *)

(** The rational that [v || d] yields on a stored number. *)
Definition or_default (d : Q) (v : option Q) : Q :=
  match v with
  | Some x => if is_zero x then d else x
  | None => d
  end.

(** The blended entries and their sum as rationals. *)
Definition blendedQ (weights : Weights) (personality : option string)
    (k : key) : Q :=
  or_default 0 (weights k) * 0.6
  + or_default 0 (pick_mod personality k) * 0.4.

Definition blend_sumQ (weights : Weights) (personality : option string) : Q :=
  fold_left Qplus (map (blendedQ weights personality) keys) 0.

(** No stored weight is negative. *)
Definition nonneg_weights (weights : Weights) : Prop :=
  forall k v, weights k = Some v -> 0 <= v.

(** Every stored weight is a fraction between 0 and 1. *)
Definition fraction_weights (weights : Weights) : Prop :=
  forall k v, weights k = Some v -> 0 <= v <= 1.

(** The tolerance up to which a computed weight is stated. *)
Definition tolerance : Q := 1 # 1000000000.

(** Every stored weight is zero or missing. *)
Definition zero_weights (weights : Weights) : Prop :=
  forall k v, weights k = Some v -> v == 0.

Definition within (lo hi : Q) (v : option Q) : Prop :=
  match v with
  | Some x => lo <= x <= hi
  | None => True
  end.

(** Attributes in range: cost and time are not negative, the three
    ratings lie between 0 and 10 (the values the option form offers; the
    options table checks the ratings only). *)
Definition in_range (o : Option) : Prop :=
  match cost o with Some c => 0 <= c | None => True end /\
  match time_required o with Some t => 0 <= t | None => True end /\
  within 0 10 (risk_level o) /\
  within 0 10 (priority o) /\
  within 0 10 (reward_potential o).

(** A number between 0 and 100. *)
Definition percent (a : number) : Prop :=
  (0 <=? a)%js = true /\ (a <=? 100)%js = true.

(** All five sub-scores and the total of an entry are percentages. *)
Definition percentages (s : ScoredOption) : Prop :=
  percent (cost_score s) /\ percent (time_score s) /\
  percent (risk_score s) /\ percent (priority_score s) /\
  percent (reward_score s) /\ percent (weighted_total s).

(** ** The application around the engine *)

Module App.
Import JS Engine.

(** [a < b] and [a >= b]; every comparison with [NaN] is false. *)
Definition ltb (a b : number) : bool :=
  match a, b with
  | NaN, _ | _, NaN => false
  | PInf, _ => false
  | _, NInf => false
  | Fin x, Fin y => negb (Qle_bool y x)
  | _, _ => true
  end.

Definition geb (a b : number) : bool := leb b a.

(** [Math.round]: the nearest integer, the larger one on a tie. *)
Definition Math_round (a : number) : number :=
  match a with
  | Fin q => Fin (inject_Z (Qfloor (q + (1 # 2))))
  | _ => a
  end.

(** *** The weight sliders of the admin page *)

(** The five sliders after [parseInt(...)]: whole percentages. *)
Definition Sliders := key -> Z.

(** [total += v] over the keys. *)
Definition slider_total (s : Sliders) : Z :=
  fold_left Z.add (map s keys) 0%Z.

(** [updateWeightTotal]: the total shown, and whether it is shown green. *)
Definition updateWeightTotal (s : Sliders) : Z * bool :=
  let total := slider_total s in
  (total, (total =? 100)%Z).

(** [saveWeights] on the local storage entry [weights]: [w[k] = v/100]
    is stored when the total is 100, otherwise the entry is left alone. *)
Definition saveWeights (s : Sliders) (stored : option Weights)
  : option Weights :=
  let w : Weights := fun k => Some (inject_Z (s k) / 100) in
  let total := slider_total s in
  if negb (total =? 100)%Z then stored else Some w.

(** The slider position [loadAdminPage] computes from the weights,
    [Math.round((w[k]||0)*100)]. *)
Definition slider_value (w : Weights) (k : key) : number :=
  Math_round ((get w k || 0) * 100)%js.

(** *** The option form *)

(** A row of the option form: the text of the label and description
    fields ([None] when the field is not there) and what [parseFloat]
    reads from the numeric fields ([None] for [NaN]). *)
Record Entry : Type := {
  value_label : option string;
  value_description : option string;
  value_cost : option Q;
  value_time : option Q;
  value_risk : option Q;
  value_priority : option Q;
  value_reward : option Q;
  value_feasibility : option Q
}.

(** An option as [collectOptions] builds it. *)
Record Collected : Type := {
  c_label : string;
  c_description : string;
  c_cost : number;
  c_time_required : number;
  c_risk_level : number;
  c_priority : number;
  c_reward_potential : number;
  c_feasibility : number
}.

(** The result of [parseFloat] as a value. *)
Definition parseFloat (v : option Q) : value :=
  Some match v with Some q => Fin q | None => NaN end.

Definition is_empty (s : string) : bool :=
  match s with EmptyString => true | _ => false end.

Section Form.

(** [String.prototype.trim]. *)
Variable trim : string -> string.

(** The callback of the [reduce] in [collectOptions]. *)
Definition collect (acc : list Collected) (e : Entry) : list Collected :=
  match option_map trim (value_label e) with
  | None => acc
  | Some label =>
      if is_empty label then acc
      else
        acc ++
        [{| c_label := label;
            c_description :=
              match value_description e with
              | Some d => d
              | None => EmptyString
              end;
            c_cost := (parseFloat (value_cost e) || 0)%js;
            c_time_required := (parseFloat (value_time e) || 0)%js;
            c_risk_level := (parseFloat (value_risk e) || 5)%js;
            c_priority := (parseFloat (value_priority e) || 5)%js;
            c_reward_potential := (parseFloat (value_reward e) || 5)%js;
            c_feasibility := (parseFloat (value_feasibility e) || 5)%js |}]
  end.

Definition collectOptions (entries : list Entry) : list Collected :=
  fold_left collect entries [].

End Form.

(** *** Decisions and their display *)

(** A stored decision; the functions below read its confidence only. *)
Record Decision : Type := {
  confidence_score : option Q
}.

(** [d.confidence_score || 0]. *)
Definition conf (d : Decision) : number :=
  (option_map Fin (confidence_score d) || 0)%js.

Inductive ConfClass : Type := conf_high | conf_med | conf_low.

(** The class of the confidence badge in [renderDecList] and
    [viewDecision]. *)
Definition confCls (d : Decision) : ConfClass :=
  if geb (conf d) (Fin 75) then conf_high
  else if geb (conf d) (Fin 50) then conf_med
  else conf_low.

(** The badge is drawn when [conf > 0]. *)
Definition badge_shown (d : Decision) : bool := gt0 (conf d).

(** The four bars of [renderConfChart]. *)
Record Buckets : Type := {
  b_0_50 : nat;
  b_50_75 : nat;
  b_75_90 : nat;
  b_90_100 : nat
}.

(** The callback of [d.forEach] in [renderConfChart]. *)
Definition tally (b : Buckets) (x : Decision) : Buckets :=
  let c := conf x in
  if ltb c (Fin 50) then
    {| b_0_50 := S (b_0_50 b); b_50_75 := b_50_75 b;
       b_75_90 := b_75_90 b; b_90_100 := b_90_100 b |}
  else if ltb c (Fin 75) then
    {| b_0_50 := b_0_50 b; b_50_75 := S (b_50_75 b);
       b_75_90 := b_75_90 b; b_90_100 := b_90_100 b |}
  else if ltb c (Fin 90) then
    {| b_0_50 := b_0_50 b; b_50_75 := b_50_75 b;
       b_75_90 := S (b_75_90 b); b_90_100 := b_90_100 b |}
  else
    {| b_0_50 := b_0_50 b; b_50_75 := b_50_75 b;
       b_75_90 := b_75_90 b; b_90_100 := S (b_90_100 b) |}.

Definition renderConfChart (d : list Decision) : Buckets :=
  fold_left tally d
            {| b_0_50 := 0; b_50_75 := 0; b_75_90 := 0; b_90_100 := 0 |}.

(** [d.confidence_score > 0]; [null] compares as 0. *)
Definition is_analyzed (d : Decision) : bool :=
  match confidence_score d with
  | Some q => gt0 (Fin q)
  | None => false
  end.

(** A stored confidence as an operand of [+]; [null] counts as 0. *)
Definition operand (d : Decision) : number :=
  match confidence_score d with
  | Some q => Fin q
  | None => Fin 0
  end.

(** The average confidence on the dashboard, [None] for the dash; the
    number is the one [toFixed(1)] prints, sum and quotient taken
    exactly. *)
Definition avgConf (decisions : list Decision) : option number :=
  let analyzed := filter is_analyzed decisions in
  match List.length analyzed with
  | O => None
  | n =>
      Some (toFixed 1 (fold_left (fun a d => a + operand d)%js analyzed (Fin 0)
                       / Fin (inject_Z (Z.of_nat n)))%js)
  end.

(** [opts.find(o => o.id === bestId)] in [openDecideForMe]. *)
Definition find_option (opts : list Option) (bestId : string)
  : option Option :=
  find (fun o => String.eqb (id o) bestId) opts.

(** [scores.find(s => s.rank === 1)] in [viewDecision]. *)
Definition bestRow (scores : list ScoredOption) : option ScoredOption :=
  find (fun s => match rank s with Some r => Nat.eqb r 1 | None => false end)
       scores.

(** *** Escaping *)

(** [s.replace(/c/g, by)] for a single character [c]. *)
Fixpoint replace_all (c : ascii) (by_ : string) (s : string) : string :=
  match s with
  | EmptyString => EmptyString
  | String a s' =>
      if Ascii.eqb a c then by_ ++ replace_all c by_ s'
      else String a (replace_all c by_ s')
  end.

(** [esc]; [None] stands for a missing text, which [s||''] turns into
    the empty string.  A text is a string of bytes (UTF-8): the four
    characters rewritten are ASCII, and no byte of a longer character
    equals one of them.  The character written ["034"] is the double
    quote, by its code. *)
Definition esc (s : option string) : string :=
  let s := match s with Some t => t | None => EmptyString end in
  replace_all "034" "&quot;"
    (replace_all ">" "&gt;"
       (replace_all "<" "&lt;"
          (replace_all "&" "&amp;" s))).

(** *** Navigation *)

Record Nav : Type := {
  CUR_PAGE : string;
  PREV_PAGE : option string
}.

(** The assignments of [gotoPage]. *)
Definition gotoPage (page : string) (st : Nav) : Nav :=
  {| CUR_PAGE := page; PREV_PAGE := Some (CUR_PAGE st) |}.

(** [goBack]: [gotoPage(PREV_PAGE || 'history')]. *)
Definition goBack (st : Nav) : Nav :=
  let page :=
    match PREV_PAGE st with
    | Some p => if is_empty p then "history"%string else p
    | None => "history"%string
    end in
  gotoPage page st.

End App.

Import App.

(** *** Escaping, one character at a time *)

(** What the four passes of [esc] make of one character. *)
Definition esc_char (a : ascii) : string :=
  if Ascii.eqb a "&" then "&amp;"%string
  else if Ascii.eqb a "<" then "&lt;"%string
  else if Ascii.eqb a ">" then "&gt;"%string
  else if Ascii.eqb a "034" then "&quot;"%string
  else String a EmptyString.

Fixpoint esc_chars (s : string) : string :=
  match s with
  | EmptyString => EmptyString
  | String a s' => (esc_char a ++ esc_chars s')%string
  end.

(** The characters [esc] rewrites. *)
Definition special (a : ascii) : bool :=
  Ascii.eqb a "&" || Ascii.eqb a "<" || Ascii.eqb a ">" || Ascii.eqb a "034".

(** The characters of a text. *)
Fixpoint chars (s : string) : list ascii :=
  match s with
  | EmptyString => []
  | String a s' => a :: chars s'
  end.

(** *** Inputs of the further examples *)

(** Sliders at 60% cost and 40% risk. *)
Definition sliders_60_40 : Sliders :=
  fun k => match k with Cost => 60%Z | Risk => 40%Z | _ => 0%Z end.

(** A form row with the risk slider at 0 and no reward value. *)
Definition sample_entry : Entry :=
  {| value_label := Some "Stay"%string;
     value_description := None;
     value_cost := Some 0; value_time := None;
     value_risk := Some 0; value_priority := Some 7;
     value_reward := None; value_feasibility := Some 5 |}.

(** What [collectOptions] makes of it. *)
Definition sample_collected : Collected :=
  {| c_label := "Stay"; c_description := "";
     c_cost := Fin 0; c_time_required := Fin 0;
     c_risk_level := Fin 5; c_priority := Fin 7;
     c_reward_potential := Fin 5; c_feasibility := Fin 5 |}.

(** Three stored decisions, one of them not analysed yet. *)
Definition sample_decisions : list Decision :=
  [ {| confidence_score := Some (171 # 2) |};
    {| confidence_score := None |};
    {| confidence_score := Some 60 |} ].

(** The navigation state when the application starts. *)
Definition initial_nav : Nav :=
  {| CUR_PAGE := "dashboard"; PREV_PAGE := None |}.

(** The relative score [max(0, 100 - (c/m)*100)] as a rational. *)
Definition relative (c m : Q) : Q :=
  if Qle_bool 0 (100 + - (c / m * 100)) then 100 + - (c / m * 100) else 0.

(** The weighted total of an option before rounding, from the rationals
    of its attributes and of the five weights. *)
Definition totalQ (wc wt wr wp ww mc mt : Q) (o : Option) : Q :=
  relative (or_default 0 (cost o)) mc * wc
  + relative (or_default 0 (time_required o)) mt * wt
  + (10 + - or_default 5 (risk_level o)) * 10 * wr
  + or_default 5 (priority o) * 10 * wp
  + or_default 5 (reward_potential o) * 10 * ww.

(** ** Facts on numbers *)

Section Numbers.

Lemma is_zero_true q : is_zero q = true <-> q == 0.
Proof. unfold is_zero. apply Qeq_bool_iff. Qed.

Lemma is_zero_false q : is_zero q = false <-> ~ q == 0.
Proof.
  rewrite <- is_zero_true. destruct (is_zero q); split; congruence.
Qed.

Lemma is_pos_true q : is_pos q = true <-> 0 < q.
Proof.
  unfold is_pos. rewrite negb_true_iff.
  destruct (Qle_bool q 0) eqn:E.
  - apply Qle_bool_iff in E. split; [discriminate | lra].
  - split; [intros _ | reflexivity].
    apply Qnot_le_lt. intro H. apply Qle_bool_iff in H. congruence.
Qed.

Lemma is_pos_false q : is_pos q = false <-> q <= 0.
Proof.
  unfold is_pos. rewrite negb_false_iff. apply Qle_bool_iff.
Qed.

Lemma is_neg_false q : is_neg q = false <-> 0 <= q.
Proof.
  unfold is_neg. rewrite negb_false_iff. apply Qle_bool_iff.
Qed.

Lemma Qle_bool_false x y : Qle_bool x y = false <-> y < x.
Proof.
  split; intro H.
  - apply Qnot_le_lt. intro L. apply Qle_bool_iff in L. congruence.
  - destruct (Qle_bool x y) eqn:E; [|reflexivity].
    apply Qle_bool_iff in E. lra.
Qed.

Lemma Qle_bool_compat x x' y y' :
  x == x' -> y == y' -> Qle_bool x y = Qle_bool x' y'.
Proof. intros Hx Hy. rewrite Hx, Hy. reflexivity. Qed.

(** [toFixedQ] sees its argument up to the equality of rationals, and its
    result is in lowest terms. *)
Lemma toFixedQ_compat d x y : x == y -> toFixedQ d x = toFixedQ d y.
Proof.
  intro E. unfold toFixedQ, is_neg.
  rewrite (Qle_bool_compat _ _ (Qabs x) (Qabs y) (Qeq_refl _)) by (rewrite E; reflexivity).
  rewrite (Qle_bool_compat 0 0 x y) by (reflexivity || exact E).
  destruct (Qle_bool _ (Qabs y)).
  - apply Qred_complete. exact E.
  - apply Qred_complete.
    assert (F : Qfloor (Qabs x * inject_Z (10 ^ Z.of_nat d) + (1 # 2))
                = Qfloor (Qabs y * inject_Z (10 ^ Z.of_nat d) + (1 # 2))).
    { apply Qfloor_comp. rewrite E. reflexivity. }
    rewrite F. reflexivity.
Qed.

Lemma toFixedQ_correct_small d x :
  0 <= x -> x < inject_Z (10 ^ 21) ->
  toFixedQ d x ==
  inject_Z (Qfloor (x * inject_Z (10 ^ Z.of_nat d) + (1 # 2)))
  / inject_Z (10 ^ Z.of_nat d).
Proof.
  intros H0 H1. unfold toFixedQ.
  assert (A : Qabs x == x) by (apply Qabs_pos; exact H0).
  assert (B : Qle_bool (inject_Z (10 ^ 21)) (Qabs x) = false).
  { apply Qle_bool_false. rewrite A. exact H1. }
  rewrite B.
  assert (N : is_neg x = false) by (apply is_neg_false; exact H0).
  rewrite N, Qred_correct.
  assert (F : Qfloor (Qabs x * inject_Z (10 ^ Z.of_nat d) + (1 # 2))
              = Qfloor (x * inject_Z (10 ^ Z.of_nat d) + (1 # 2))).
  { apply Qfloor_comp. rewrite A. reflexivity. }
  rewrite F. reflexivity.
Qed.

(** Rounding keeps a number between two integer bounds. *)
Lemma toFixedQ_between d (a b : Z) x :
  (0 <= a)%Z -> (b < 10 ^ 21)%Z ->
  inject_Z a <= x <= inject_Z b ->
  inject_Z a <= toFixedQ d x <= inject_Z b.
Proof.
  intros Ha Hb [Hl Hu].
  assert (H0 : 0 <= x).
  { apply Qle_trans with (inject_Z a); [|exact Hl].
    change 0 with (inject_Z 0). rewrite <- Zle_Qle. exact Ha. }
  assert (H1 : x < inject_Z (10 ^ 21)).
  { apply Qle_lt_trans with (inject_Z b); [exact Hu|].
    rewrite <- Zlt_Qlt. exact Hb. }
  rewrite (toFixedQ_correct_small d x H0 H1).
  set (p := (10 ^ Z.of_nat d)%Z).
  assert (Hp : (0 < p)%Z) by (apply Z.pow_pos_nonneg; lia).
  assert (Hpq : 0 < inject_Z p).
  { change 0 with (inject_Z 0). rewrite <- Zlt_Qlt. exact Hp. }
  set (n := Qfloor (x * inject_Z p + (1 # 2))).
  assert (Ln : (a * p <= n)%Z).
  { unfold n. rewrite <- (Qfloor_Z (a * p)). apply Qfloor_resp_le.
    rewrite inject_Z_mult. nra. }
  assert (Un : (n <= b * p)%Z).
  { assert (S : (n < b * p + 1)%Z).
    { unfold n. rewrite Zlt_Qlt.
      apply Qle_lt_trans with (x * inject_Z p + (1 # 2)).
      - apply Qfloor_le.
      - rewrite inject_Z_plus, inject_Z_mult.
        change (inject_Z 1) with 1. nra. }
    lia. }
  split.
  - apply Qle_shift_div_l; [exact Hpq|].
    rewrite <- inject_Z_mult, <- Zle_Qle. exact Ln.
  - apply Qle_shift_div_r; [exact Hpq|].
    rewrite <- inject_Z_mult, <- Zle_Qle. exact Un.
Qed.

End Numbers.

(** ** Finite and non-finite results *)


Section Finite.

Lemma finite_inv a : finite a -> exists q, a = Fin q.
Proof. destruct a; simpl; intro H; try contradiction. eauto. Qed.

Lemma finite_Fin q : finite (Fin q).
Proof. exact I. Qed.

Lemma finite_add a b : finite a -> finite b -> finite (a + b)%js.
Proof. destruct a, b; simpl; tauto. Qed.

Lemma finite_sub a b : finite a -> finite b -> finite (a - b)%js.
Proof. destruct a, b; simpl; tauto. Qed.

Lemma finite_mul a b : finite a -> finite b -> finite (a * b)%js.
Proof. destruct a, b; simpl; tauto. Qed.

Lemma finite_div a b : finite a -> nonzero b -> finite (a / b)%js.
Proof.
  destruct a, b; simpl; try tauto. intros _ H.
  apply is_zero_false in H. rewrite H. exact I.
Qed.

Lemma finite_or (v : option Q) (d : Q) : finite (option_map Fin v || d)%js.
Proof.
  destruct v as [q|]; simpl; [|exact I]. destruct (is_zero q); exact I.
Qed.

Lemma finite_max2 a b : finite a -> finite b -> finite (max2 a b).
Proof.
  destruct a, b; simpl; try tauto. intros _ _. destruct (Qle_bool q q0); exact I.
Qed.

Lemma finite_min2 a b : finite a -> finite b -> finite (min2 a b).
Proof.
  destruct a, b; simpl; try tauto. intros _ _. destruct (Qle_bool q q0); exact I.
Qed.

Lemma finite_toFixed d a : finite a -> finite (toFixed d a).
Proof. destruct a; simpl; tauto. Qed.

Lemma finite_Math_max2 a b : finite a -> finite b -> finite (Math_max [a; b]).
Proof.
  intros Ha Hb. unfold Math_max. simpl. apply finite_max2; [|exact Hb].
  destruct a; simpl in *; tauto.
Qed.

Lemma nonzero_100 : nonzero (Fin 100).
Proof. simpl. intro H. discriminate. Qed.

Lemma fold_max2_shape (l : list number) :
  Forall finite l ->
  forall a, a = NInf \/ (exists q, a = Fin q) ->
  fold_left max2 l a = NInf \/ (exists q, fold_left max2 l a = Fin q).
Proof.
  induction 1 as [|x l Hx F IH]; intros a Ha; simpl; [exact Ha|].
  apply IH. right. apply finite_inv in Hx. destruct Hx as [y ->].
  destruct Ha as [->|[q ->]]; simpl; [eauto|].
  destruct (Qle_bool q y); eauto.
Qed.

(** [Math.max(...values, 1)] over finite values is a finite number, at
    least 1. *)
Lemma Math_max_floor_1 (l : list number) :
  Forall finite l -> exists m, Math_max (l ++ [Fin 1]) = Fin m /\ 1 <= m.
Proof.
  intro F. unfold Math_max. rewrite fold_left_app. simpl.
  destruct (fold_max2_shape l F NInf (or_introl eq_refl)) as [->|[q ->]]; simpl.
  - exists 1. split; [reflexivity | lra].
  - destruct (Qle_bool q 1) eqn:E.
    + exists 1. split; [reflexivity | lra].
    + exists q. split; [reflexivity|]. apply Qle_bool_false in E. lra.
Qed.


Lemma nonfinite_add_l a b : ~ finite a -> ~ finite (a + b)%js.
Proof. destruct a, b; simpl; tauto. Qed.




End Finite.

#[export] Hint Resolve finite_Fin finite_add finite_sub finite_mul finite_div
  finite_or finite_max2 finite_min2 finite_toFixed finite_Math_max2
  nonzero_100 : fin.

(** From here on the arithmetic is opaque to simplification. *)
Arguments JS.add : simpl never.
Arguments JS.sub : simpl never.
Arguments JS.mul : simpl never.
Arguments JS.div : simpl never.
Arguments JS.or : simpl never.
Arguments JS.toFixed : simpl never.
Arguments JS.Math_max : simpl never.
Arguments JS.Math_min : simpl never.

(** ** Blending *)

Section Blending.

Variables (weights : Weights) (personality : option string).

Lemma blended_finite k : finite (blended weights personality k).
Proof. unfold blended, get. auto with fin. Qed.

Lemma blend_sum_finite : exists t, blend_sum weights personality = Fin t.
Proof.
  apply finite_inv. unfold blend_sum, keys. cbn [fold_left map].
  repeat apply finite_add; try exact I; unfold get; auto with fin.
Qed.

Lemma blend_finite k :
  degenerate weights personality = false -> finite (blend weights personality k).
Proof.
  unfold degenerate, blend. intro D.
  destruct blend_sum_finite as [t E]. rewrite E in *.
  apply finite_div; [apply blended_finite|]. simpl.
  apply is_zero_false. exact D.
Qed.


End Blending.

(** ** Scoring one option *)

Section Scoring.

Variables (w : key -> number) (maxCost maxTime : number).

Lemma score_total_finite o :
  (forall k, finite (w k)) ->
  finite maxCost -> nonzero maxCost -> finite maxTime -> nonzero maxTime ->
  finite (weighted_total (score w maxCost maxTime o)).
Proof.
  intros Hw Hc Hc' Ht Ht'. unfold score, prop. simpl weighted_total.
  apply finite_toFixed.
  repeat apply finite_add; apply finite_mul; auto 8 with fin.
Qed.


Lemma score_id o : option_id (score w maxCost maxTime o) = id o.
Proof. reflexivity. Qed.

Lemma score_raw_risk o :
  raw_risk (score w maxCost maxTime o) = (prop risk_level o || 5)%js.
Proof. reflexivity. Qed.

(** Options with the same attributes get the same scores. *)
Lemma score_same_total o o' :
  same_attributes o o' ->
  weighted_total (score w maxCost maxTime o)
  = weighted_total (score w maxCost maxTime o').
Proof.
  intros (Hc & Ht & Hr & Hp & Hw). unfold score, prop. simpl.
  rewrite Hc, Ht, Hr, Hp, Hw. reflexivity.
Qed.

End Scoring.

Lemma maxima_finite (f : Option -> option Q) (d : Q) (options : list Option) :
  exists m,
    Math_max (map (fun o => prop f o || d)%js options ++ [Fin 1]) = Fin m
    /\ 1 <= m.
Proof.
  apply Math_max_floor_1. apply Forall_forall. intros x Hx.
  apply in_map_iff in Hx. destruct Hx as (o & <- & _).
  unfold prop. apply finite_or.
Qed.

(** ** Sorting and ranking *)

Section Sorting.

Lemma insert_perm a l : Permutation (insert a l) (a :: l).
Proof.
  induction l as [|b l IH]; simpl; [reflexivity|].
  destruct (gt0 (compare a b)); [|reflexivity].
  rewrite IH. apply perm_swap.
Qed.

Lemma sort_perm l : Permutation (sort l) l.
Proof.
  induction l as [|a l IH]; simpl; [reflexivity|].
  rewrite insert_perm. constructor. exact IH.
Qed.

Lemma sort_length l : List.length (sort l) = List.length l.
Proof. apply Permutation_length, sort_perm. Qed.

(** On finite totals the comparator is a total preorder. *)
Lemma gt0_compare_true a b :
  finite (weighted_total a) -> finite (weighted_total b) ->
  gt0 (compare a b) = true -> above b a.
Proof.
  unfold compare, above. intros Ha Hb.
  apply finite_inv in Ha, Hb. destruct Ha as [x ->], Hb as [y ->]. simpl.
  intro H. apply is_pos_true in H. apply Qle_bool_iff. lra.
Qed.

Lemma gt0_compare_false a b :
  finite (weighted_total a) -> finite (weighted_total b) ->
  gt0 (compare a b) = false -> above a b.
Proof.
  unfold compare, above. intros Ha Hb.
  apply finite_inv in Ha, Hb. destruct Ha as [x ->], Hb as [y ->]. simpl.
  intro H. apply is_pos_false in H. apply Qle_bool_iff. lra.
Qed.

Lemma above_trans a b c :
  finite (weighted_total a) -> finite (weighted_total b) ->
  finite (weighted_total c) -> above a b -> above b c -> above a c.
Proof.
  unfold above. intros Ha Hb Hc.
  apply finite_inv in Ha, Hb, Hc.
  destruct Ha as [x ->], Hb as [y ->], Hc as [z ->]. simpl.
  rewrite !Qle_bool_iff. lra.
Qed.

Lemma insert_sorted a l :
  finite (weighted_total a) -> all_finite l ->
  StronglySorted above l -> StronglySorted above (insert a l).
Proof.
  intros Ha Hl S. induction S as [|b l S IH Hb]; simpl.
  - repeat constructor.
  - inversion Hl as [|? ? Fb Fl]; subst.
    destruct (gt0 (compare a b)) eqn:E.
    + constructor; [apply IH; exact Fl|].
      apply Forall_forall. intros x Hx.
      apply (Permutation_in _ (insert_perm a l)) in Hx.
      destruct Hx as [<-|Hx].
      * apply gt0_compare_true; assumption.
      * rewrite Forall_forall in Hb. apply Hb, Hx.
    + pose proof (gt0_compare_false a b Ha Fb E) as Hab.
      constructor; [constructor; assumption|].
      constructor; [exact Hab|].
      apply Forall_forall. intros x Hx.
      apply above_trans with b; auto.
      * unfold all_finite in Fl. rewrite Forall_forall in Fl. apply Fl, Hx.
      * rewrite Forall_forall in Hb. apply Hb, Hx.
Qed.

Lemma sort_all_finite l : all_finite l -> all_finite (sort l).
Proof.
  unfold all_finite. intro H.
  apply (Permutation_Forall (Permutation_sym (sort_perm l))). exact H.
Qed.

(** The sort puts finite totals in descending order. *)
Lemma sort_sorted l : all_finite l -> StronglySorted above (sort l).
Proof.
  induction 1 as [|a l Ha Hl IH]; simpl; [constructor|].
  apply insert_sorted; [exact Ha | apply sort_all_finite; exact Hl | exact IH].
Qed.

(** Ties keep the input order: a list no element of which beats another
    is left as it is. *)
Lemma sort_ties l :
  (forall a b, In a l -> In b l -> gt0 (compare a b) = false) -> sort l = l.
Proof.
  induction l as [|a l IH]; intro H; simpl; [reflexivity|].
  rewrite IH by (intros; apply H; simpl; auto).
  destruct l as [|b l]; simpl; [reflexivity|].
  rewrite H by (simpl; auto). reflexivity.
Qed.

(** Stability: the sort never moves an entry past one with the same
    total, so the entries of any given total stay in their order. *)
Lemma no_overtaking t a b :
  has_total t a = true -> has_total t b = true -> gt0 (compare a b) = false.
Proof.
  unfold has_total, compare.
  destruct t as [z| | |], (weighted_total a) as [x| | |],
    (weighted_total b) as [y| | |]; simpl; try discriminate;
    try reflexivity.
  intros Ha Hb. apply Qeq_bool_iff in Ha, Hb.
  change (is_pos (y + - x) = false). apply is_pos_false. lra.
Qed.

Lemma insert_filter t a l :
  filter (has_total t) (insert a l) = filter (has_total t) (a :: l).
Proof.
  induction l as [|b l IH]; [reflexivity|].
  cbn [insert]. destruct (gt0 (compare a b)) eqn:E; [|reflexivity].
  cbn [filter] in *. rewrite IH.
  destruct (has_total t a) eqn:Pa, (has_total t b) eqn:Pb; try reflexivity.
  rewrite (no_overtaking t a b Pa Pb) in E. discriminate.
Qed.

Lemma sort_stable t l :
  filter (has_total t) (sort l) = filter (has_total t) l.
Proof.
  induction l as [|a l IH]; [reflexivity|].
  cbn [sort fold_right]. fold (sort l). rewrite insert_filter.
  cbn [filter]. rewrite IH. reflexivity.
Qed.

Lemma assign_ranks_filter t i l :
  map option_id (filter (has_total t) (assign_ranks i l))
  = map option_id (filter (has_total t) l).
Proof.
  revert i. induction l as [|s l IH]; intro i; [reflexivity|].
  cbn [assign_ranks filter].
  change (has_total t (set_rank s (i + 1))) with (has_total t s).
  destruct (has_total t s); cbn [map]; rewrite IH; reflexivity.
Qed.

Lemma assign_ranks_length i l : List.length (assign_ranks i l) = List.length l.
Proof. revert i. induction l; intro i; simpl; congruence. Qed.

Lemma assign_ranks_total i l :
  map weighted_total (assign_ranks i l) = map weighted_total l.
Proof. revert i. induction l; intro i; simpl; congruence. Qed.

Lemma assign_ranks_id i l :
  map option_id (assign_ranks i l) = map option_id l.
Proof. revert i. induction l; intro i; simpl; congruence. Qed.

Lemma assign_ranks_cost i l :
  map cost_score (assign_ranks i l) = map cost_score l.
Proof. revert i. induction l; intro i; simpl; congruence. Qed.

Lemma assign_ranks_rank i l :
  map rank (assign_ranks i l) = map Some (seq (i + 1) (List.length l)).
Proof.
  revert i. induction l as [|s l IH]; intro i; simpl; [reflexivity|].
  rewrite IH. replace (S i + 1)%nat with (S (i + 1)) by lia. reflexivity.
Qed.

End Sorting.

(** ** The engine as a whole *)

Section Engine_facts.

Variables (weights : Weights) (personality : option string).

Lemma ranked_length options :
  List.length (ranked options weights personality) = List.length options.
Proof.
  unfold ranked, scored.
  rewrite assign_ranks_length, sort_length, length_map. reflexivity.
Qed.

Lemma maxCost_finite options : finite (maxCost options) /\ nonzero (maxCost options).
Proof.
  destruct (maxima_finite cost 0 options) as (m & E & Hm).
  unfold maxCost. rewrite E. simpl. split; [exact I | lra].
Qed.

Lemma maxTime_finite options : finite (maxTime options) /\ nonzero (maxTime options).
Proof.
  destruct (maxima_finite time_required 0 options) as (m & E & Hm).
  unfold maxTime. rewrite E. simpl. split; [exact I | lra].
Qed.

Lemma scored_all_finite options :
  degenerate weights personality = false ->
  all_finite (scored options weights personality).
Proof.
  intro D. unfold all_finite, scored. apply Forall_forall. intros s Hs.
  apply in_map_iff in Hs. destruct Hs as (o & <- & _).
  apply score_total_finite.
  - intro k. apply blend_finite, D.
  - apply maxCost_finite.
  - apply maxCost_finite.
  - apply maxTime_finite.
  - apply maxTime_finite.
Qed.


(** A property of the weighted totals of all entries passes from
    [scored] to the breakdown. *)
Lemma ranked_Forall_total (P : number -> Prop) options :
  Forall (fun s => P (weighted_total s)) (scored options weights personality) ->
  Forall (fun s => P (weighted_total s)) (ranked options weights personality).
Proof.
  intro H. unfold ranked.
  apply (Permutation_Forall (Permutation_sym (sort_perm _))) in H.
  rewrite <- Forall_map in *. rewrite assign_ranks_total. exact H.
Qed.

(** What [scoreOptions] returns on a list that is not empty. *)
Lemma scoreOptions_Return o options :
  exists r best rest,
    scoreOptions (o :: options) weights personality = Return r /\
    ranked (o :: options) weights personality = best :: rest /\
    breakdown r = best :: rest /\
    bestId r = option_id best /\
    confidence r =
      confidence_of (weighted_total best
                     - (option_map weighted_total (hd_error rest) || 0))%js /\
    riskLevel r = classify (raw_risk best).
Proof.
  unfold scoreOptions.
  pose proof (ranked_length (o :: options)) as L.
  destruct (ranked (o :: options) weights personality) as [|best rest];
    [discriminate|].
  eexists _, best, rest. repeat split; reflexivity.
Qed.

End Engine_facts.

(** ** Failure modes *)

(** C3 (as the code has it): [scoreOptions] throws only on the empty
    list, where reading the first entry raises a [TypeError]; on every
    list with at least one option it returns a result with one breakdown
    entry per option, whatever the labels are, and takes 0 for the total
    of the missing runner-up when there is a single option. *)
Theorem scoreOptions_throws_only_on_empty :
  forall (o : Option) (options : list Option) (weights : Weights)
         (personality : option string),
    scoreOptions [] weights personality = Throw TypeError /\
    (exists r,
        scoreOptions (o :: options) weights personality = Return r /\
        List.length (breakdown r) = S (List.length options)) /\
    (exists r s,
        scoreOptions [o] weights personality = Return r /\
        breakdown r = [s] /\
        confidence r = confidence_of (weighted_total s - 0)%js).
Proof.
  intros o options weights personality. split; [reflexivity|]. split.
  - destruct (scoreOptions_Return weights personality o options)
      as (r & best & rest & E & R & B & _).
    exists r. split; [exact E|].
    rewrite B, <- R, ranked_length. reflexivity.
  - destruct (scoreOptions_Return weights personality o [])
      as (r & best & rest & E & R & B & _ & C & _).
    pose proof (ranked_length weights personality [o]) as L.
    rewrite R in L. destruct rest; [|discriminate].
    exists r, best. repeat split; assumption.
Qed.




(** ** Confidence and ranking *)

Lemma clamp_bounds x : 50 <= clamp x 50 99 <= 99.
Proof.
  unfold clamp. destruct (Qle_bool x 50) eqn:A; [lra|].
  destruct (Qle_bool 99 x) eqn:B; [lra|].
  apply Qle_bool_false in A, B. lra.
Qed.

(** The confidence of a finite gap is the clamp of the specification,
    rounded to one decimal. *)
Lemma confidence_of_Fin g g' :
  g == g' ->
  confidence_of (Fin g) = Fin (toFixedQ 1 (clamp (50 + g' / 100 * 49) 50 99)).
Proof.
  intro E. unfold confidence_of, Math_min, Math_max. cbn [fold_left].
  change (Fin g / 100)%js with (Fin (g / 100)).
  change (Fin (g / 100) * 49)%js with (Fin (g / 100 * 49)).
  change (50 + Fin (g / 100 * 49))%js with (Fin (50 + g / 100 * 49)).
  set (v := 50 + g / 100 * 49). set (v' := 50 + g' / 100 * 49).
  assert (Ev : v == v') by (unfold v, v'; rewrite E; reflexivity).
  change (min2 PInf 99) with (Fin 99). change (max2 NInf 50) with (Fin 50).
  unfold max2, min2, leb, clamp, toFixed.
  rewrite <- (Qle_bool_compat v v' 50 50 Ev (Qeq_refl _)).
  rewrite <- (Qle_bool_compat 99 99 v v' (Qeq_refl _) Ev).
  destruct (Qle_bool 50 v) eqn:A; destruct (Qle_bool v 50) eqn:B;
    destruct (Qle_bool 99 v) eqn:C;
    try (rewrite C);
    try apply Qle_bool_iff in A; try apply Qle_bool_iff in B;
    try apply Qle_bool_iff in C;
    try apply Qle_bool_false in A; try apply Qle_bool_false in B;
    try apply Qle_bool_false in C; try lra.
  all: try (destruct (Qle_bool 99 50) eqn:D; [discriminate|]).
  all: f_equal; apply toFixedQ_compat; lra.
Qed.

(** The gap as the code computes it, with [|| 0] on the runner-up. *)
Lemma gap_finite x y :
  exists g, (Fin x - (Some (Fin y) || 0))%js = Fin g /\ g == x - y.
Proof.
  unfold JS.or, truthy. destruct (is_zero y) eqn:Z; simpl.
  - apply is_zero_true in Z. exists (x + - 0). split; [reflexivity | lra].
  - exists (x + - y). split; [reflexivity | lra].
Qed.

Lemma above_same_totals a a' l l' :
  weighted_total a = weighted_total a' ->
  map weighted_total l = map weighted_total l' ->
  Forall (above a) l -> Forall (above a') l'.
Proof.
  intros Ea El F. revert l' El.
  induction F as [|b l Hb F IH]; intros [|b' l'] El; try discriminate;
    constructor.
  - injection El as Eb _. unfold above in *. rewrite <- Ea, <- Eb. exact Hb.
  - apply IH. injection El as _ El. exact El.
Qed.

Lemma sorted_same_totals l l' :
  map weighted_total l = map weighted_total l' ->
  StronglySorted above l -> StronglySorted above l'.
Proof.
  intros El S. revert l' El.
  induction S as [|a l S IH Ha]; intros [|a' l'] El; try discriminate;
    constructor; injection El as Ea El.
  - apply IH, El.
  - apply (above_same_totals a a' l l'); assumption.
Qed.

(** The breakdown is in descending order of the weighted totals. *)
Lemma ranked_sorted options weights personality :
  degenerate weights personality = false ->
  StronglySorted above (ranked options weights personality).
Proof.
  intro D. unfold ranked.
  apply (sorted_same_totals (sort (scored options weights personality))).
  - symmetry. apply assign_ranks_total.
  - apply sort_sorted, scored_all_finite, D.
Qed.

(** Ties keep the input order: for every total, the options with that
    total appear in the breakdown in the order of the input. *)
Lemma breakdown_is_stable o options weights personality t :
  exists r,
    scoreOptions (o :: options) weights personality = Return r /\
    map option_id (filter (has_total t) (breakdown r))
    = map option_id
        (filter (has_total t) (scored (o :: options) weights personality)).
Proof.
  destruct (scoreOptions_Return weights personality o options)
    as (r & best & rest & E & R & B & _).
  exists r. split; [exact E|].
  rewrite B, <- R. unfold ranked.
  rewrite assign_ranks_filter, sort_stable. reflexivity.
Qed.




Lemma gt0_sub_self x : gt0 (x - x)%js = false.
Proof.
  destruct x as [q| | |]; try reflexivity.
  change (is_pos (q + - q) = false). apply is_pos_false. lra.
Qed.

(** Options that agree on every attribute get the same total, so the
    sort leaves them as they are. *)
Lemma identical_options_unsorted options weights personality :
  attribute_identical options ->
  (forall s s', In s (scored options weights personality) ->
                In s' (scored options weights personality) ->
                weighted_total s = weighted_total s') /\
  sort (scored options weights personality)
  = scored options weights personality.
Proof.
  intro I.
  assert (T : forall s s', In s (scored options weights personality) ->
                           In s' (scored options weights personality) ->
                           weighted_total s = weighted_total s').
  { intros s s' Hs Hs'. unfold scored in Hs, Hs'.
    apply in_map_iff in Hs, Hs'.
    destruct Hs as (o & <- & Ho), Hs' as (o' & <- & Ho').
    apply score_same_total. apply I; assumption. }
  split; [exact T|].
  apply sort_ties. intros a b Ha Hb. unfold compare.
  rewrite (T b a Hb Ha). apply gt0_sub_self.
Qed.

Lemma identical_options_order o options weights personality r :
  attribute_identical (o :: options) ->
  scoreOptions (o :: options) weights personality = Return r ->
  map option_id (breakdown r) = map id (o :: options).
Proof.
  intros I E.
  destruct (scoreOptions_Return weights personality o options)
    as (r' & best & rest & E' & R & B & _).
  rewrite E in E'. injection E' as <-.
  destruct (identical_options_unsorted (o :: options) weights personality I)
    as (_ & Srt).
  rewrite B, <- R. unfold ranked. rewrite Srt, assign_ranks_id. unfold scored.
  rewrite map_map. apply map_ext. intro x. reflexivity.
Qed.

Lemma identical_options_confidence o o' options weights personality r :
  attribute_identical (o :: o' :: options) ->
  degenerate weights personality = false ->
  scoreOptions (o :: o' :: options) weights personality = Return r ->
  confidence r = Fin 50.
Proof.
  intros I D E.
  destruct (scoreOptions_Return weights personality o (o' :: options))
    as (r' & best & rest & E' & R & B & _ & C & _).
  rewrite E in E'. injection E' as <-.
  destruct (identical_options_unsorted (o :: o' :: options) weights
              personality I) as (T & _).
  set (opts := o :: o' :: options) in *.
  set (first := score (blend weights personality) (maxCost opts)
                      (maxTime opts) o).
  assert (H1 : In first (scored opts weights personality))
    by (unfold scored, opts; left; reflexivity).
  assert (F1 : finite (weighted_total first)).
  { pose proof (scored_all_finite weights personality opts D) as F.
    unfold all_finite in F. rewrite Forall_forall in F. apply F, H1. }
  apply finite_inv in F1. destruct F1 as [x Ex].
  assert (Tb : Forall (fun s => weighted_total s = Fin x) (best :: rest)).
  { rewrite <- R.
    apply (ranked_Forall_total weights personality (fun t => t = Fin x)).
    apply Forall_forall. intros s Hs. rewrite (T s first Hs H1). exact Ex. }
  pose proof (ranked_length weights personality opts) as Len.
  rewrite R in Len.
  destruct rest as [|second rest]; [discriminate|].
  inversion Tb as [|? ? Tb1 Tb']; subst.
  inversion Tb' as [|? ? Tb2 _]; subst.
  rewrite C. simpl hd_error. simpl option_map. rewrite Tb1, Tb2.
  destruct (gap_finite x x) as (g & -> & Hg).
  rewrite (confidence_of_Fin g 0) by lra. reflexivity.
Qed.

(** C8 (as the code has it): for options whose attributes are in range
    and weights that are not negative (the blend not summing to zero),
    the ranking lists the options in descending order of the weighted
    totals, options with the same total in the order in which they were
    given, with ranks 1 to n; when all options agree on every attribute
    the breakdown is in the input order and, for at least two options,
    the confidence is 50. *)
Theorem ranking_is_descending_and_stable :
  forall (o : Option) (options : list Option) (weights : Weights)
         (personality : option string),
    nonneg_weights weights ->
    degenerate weights personality = false ->
    Forall in_range (o :: options) ->
    exists r,
      scoreOptions (o :: options) weights personality = Return r /\
      StronglySorted above (breakdown r) /\
      (forall t,
          map option_id (filter (has_total t) (breakdown r))
          = map option_id
              (filter (has_total t)
                      (scored (o :: options) weights personality))) /\
      map rank (breakdown r)
      = map Some (seq 1 (List.length (o :: options))) /\
      (attribute_identical (o :: options) ->
       map option_id (breakdown r) = map id (o :: options) /\
       (options <> [] -> confidence r = Fin 50)).
Proof.
  intros o options weights personality _ D _.
  destruct (scoreOptions_Return weights personality o options)
    as (r & best & rest & E & R & B & _).
  exists r. split; [exact E|]. split; [|split; [|split]].
  - rewrite B, <- R. apply ranked_sorted, D.
  - intro t. rewrite B, <- R. unfold ranked.
    rewrite assign_ranks_filter, sort_stable. reflexivity.
  - rewrite B, <- R. unfold ranked.
    rewrite assign_ranks_rank, sort_length. unfold scored.
    rewrite length_map. reflexivity.
  - intro I. split.
    + apply (identical_options_order o options weights personality r I E).
    + intro N. destruct options as [|o' options]; [contradiction N; reflexivity|].
      apply (identical_options_confidence o o' options weights personality r
               I D E).
Qed.


(** Two options with the same attributes under the default weights. *)
Lemma ranking_is_descending_and_stable_witness :
  exists r,
    scoreOptions [cheap_slow; cheap_slow_twin] (loadWeights None) None
    = Return r /\
    StronglySorted above (breakdown r) /\
    (forall t,
        map option_id (filter (has_total t) (breakdown r))
        = map option_id
            (filter (has_total t)
                    (scored [cheap_slow; cheap_slow_twin] (loadWeights None)
                            None))) /\
    map rank (breakdown r)
    = map Some (seq 1 (List.length [cheap_slow; cheap_slow_twin])) /\
    map option_id (breakdown r) = map id [cheap_slow; cheap_slow_twin] /\
    confidence r = Fin 50.
Proof.
  destruct (ranking_is_descending_and_stable cheap_slow [cheap_slow_twin]
              (loadWeights None) None) as (r & E & S & T & Rk & I).
  - intros k v H. destruct k; injection H as <-; vm_compute; discriminate.
  - vm_compute. reflexivity.
  - repeat constructor; vm_compute; discriminate.
  - destruct I as (Hid & Hc).
    + intros o o' [<-|[<-|[]]] [<-|[<-|[]]]; repeat split.
    + exists r. repeat split; try assumption. apply Hc. discriminate.
Defined.


(** ** Worked examples *)

(** C1 (what the code computes): on the worked example of the
    specification, with the default weights and the balanced personality,
    option 1 is ranked first with weighted total 87.5 and risk sub-score
    50, option 2 gets 15 with priority and reward sub-scores 50, the
    confidence is 85.5 and the risk level is medium: the risk level 0 of
    option 1 and the priority 0 and reward 0 of option 2 are replaced by
    the default 5. *)
Theorem spec_example_result :
  scoreOptions [spec_option_1; spec_option_2] (loadWeights None)
               (Some "balanced"%string)
  = Return
      {| breakdown :=
           [ {| option_id := "1"; slabel := Some "1"%string;
                cost_score := Fin 100; time_score := Fin 100;
                risk_score := Fin 50; priority_score := Fin 100;
                reward_score := Fin 100; weighted_total := Fin (175 # 2);
                raw_risk := Fin 5; rank := Some 1%nat |};
             {| option_id := "2"; slabel := Some "2"%string;
                cost_score := Fin 0; time_score := Fin 0;
                risk_score := Fin 0; priority_score := Fin 50;
                reward_score := Fin 50; weighted_total := Fin 15;
                raw_risk := Fin 10; rank := Some 2%nat |} ];
         bestId := "1";
         confidence := Fin (171 # 2);
         riskLevel := medium |}.
Proof. vm_compute. reflexivity. Qed.

(** C2 (what the code computes): a risk level 0 is taken for a missing
    one, so its sub-score is 50 and the risk echoed to the classification
    is 5; likewise a priority 0 yields the sub-score 50. *)
Theorem zero_risk_and_priority_are_defaulted :
  forall (w : key -> number) (maxCost maxTime : number) (o : Option),
    risk_level o = Some 0 -> priority o = Some 0 ->
    risk_score (score w maxCost maxTime o) = Fin 50 /\
    raw_risk (score w maxCost maxTime o) = Fin 5 /\
    priority_score (score w maxCost maxTime o) = Fin 50.
Proof.
  intros w mc mt o Hr Hp. unfold score, prop. simpl.
  rewrite Hr, Hp. repeat split; vm_compute; reflexivity.
Qed.

(** An option with risk level 0 and priority 0. *)
Lemma zero_risk_and_priority_are_defaulted_witness :
  risk_score (score (blend default_weights None) (Fin 1000) (Fin 100)
                    zero_option) = Fin 50 /\
  raw_risk (score (blend default_weights None) (Fin 1000) (Fin 100)
                  zero_option) = Fin 5 /\
  priority_score (score (blend default_weights None) (Fin 1000) (Fin 100)
                        zero_option) = Fin 50.
Proof.
  apply (zero_risk_and_priority_are_defaulted
           (blend default_weights None) (Fin 1000) (Fin 100) zero_option);
    reflexivity.
Defined.

(** Where the defaulting does not strike: a risk level that is present
    and not zero yields [(10 - risk_level) * 10], a priority that is
    present and not zero yields [priority * 10], both rounded to two
    decimals, and a missing one counts as 5. *)
Lemma nonzero_risk_and_priority_scores :
  forall (w : key -> number) (maxCost maxTime : number) (o : Option) (r p : Q),
    risk_level o = Some r -> ~ r == 0 -> priority o = Some p -> ~ p == 0 ->
    risk_score (score w maxCost maxTime o) = Fin (toFixedQ 2 ((10 - r) * 10)) /\
    priority_score (score w maxCost maxTime o) = Fin (toFixedQ 2 (p * 10)).
Proof.
  intros w mc mt o r p Hr Zr Hp Zp. unfold score, prop. simpl.
  rewrite Hr, Hp. unfold JS.or, truthy. simpl.
  apply is_zero_false in Zr, Zp. rewrite Zr, Zp. simpl. split; reflexivity.
Qed.

Lemma missing_risk_and_priority_scores :
  forall (w : key -> number) (maxCost maxTime : number) (o : Option),
    risk_level o = None -> priority o = None ->
    risk_score (score w maxCost maxTime o) = Fin 50 /\
    priority_score (score w maxCost maxTime o) = Fin 50.
Proof.
  intros w mc mt o Hr Hp. unfold score, prop. simpl.
  rewrite Hr, Hp. split; vm_compute; reflexivity.
Qed.

Lemma assign_ranks_id_cost i l :
  map (fun s => (option_id s, cost_score s)) (assign_ranks i l)
  = map (fun s => (option_id s, cost_score s)) l.
Proof. revert i. induction l; intro i; simpl; congruence. Qed.

(** C5 (as the code has it): of two options that differ in cost only,
    100 against 200, the first gets the cost sub-score 50 and the second,
    the most expensive of the set, gets 0. *)
Theorem cost_scores_of_100_and_200 :
  forall (i1 i2 : string) (t r p w : option Q) (weights : Weights)
         (personality : option string),
    exists res,
      scoreOptions [mk_option i1 (Some 100) t r p w;
                    mk_option i2 (Some 200) t r p w] weights personality
      = Return res /\
      Permutation (map (fun s => (option_id s, cost_score s)) (breakdown res))
                  [(i1, Fin 50); (i2, Fin 0)].
Proof.
  intros i1 i2 t r p w weights personality.
  destruct (scoreOptions_Return weights personality
              (mk_option i1 (Some 100) t r p w)
              [mk_option i2 (Some 200) t r p w])
    as (res & best & rest & E & R & B & _).
  exists res. split; [exact E|].
  rewrite B, <- R. unfold ranked. rewrite assign_ranks_id_cost.
  rewrite (Permutation_map _ (sort_perm _)).
  unfold scored. cbn [map].
  assert (M : maxCost [mk_option i1 (Some 100) t r p w;
                       mk_option i2 (Some 200) t r p w] = Fin 200)
    by (vm_compute; reflexivity).
  rewrite M.
  replace (cost_score (score (blend weights personality) (Fin 200) _
                             (mk_option i1 (Some 100) t r p w)))
    with (Fin 50) by (vm_compute; reflexivity).
  replace (cost_score (score (blend weights personality) (Fin 200) _
                             (mk_option i2 (Some 200) t r p w)))
    with (Fin 0) by (vm_compute; reflexivity).
  reflexivity.
Qed.

(** ** Risk level of the winner *)

Lemma assign_ranks_In i l x :
  In x (assign_ranks i l) -> exists s r, In s l /\ x = set_rank s r.
Proof.
  revert i. induction l as [|s l IH]; intros i H; simpl in H; [contradiction|].
  destruct H as [<-|H].
  - exists s, (i + 1)%nat. split; [left|]; reflexivity.
  - destruct (IH _ H) as (s' & r & Hs & ->). exists s', r. split; [right|]; auto.
Qed.

(** The risk level of the result is the threshold table applied to
    [risk_level || 5] of the option ranked first. *)
Lemma riskLevel_of_winner o options weights personality :
  exists r o',
    scoreOptions (o :: options) weights personality = Return r /\
    In o' (o :: options) /\ bestId r = id o' /\
    riskLevel r = classify (prop risk_level o' || 5)%js.
Proof.
  destruct (scoreOptions_Return weights personality o options)
    as (r & best & rest & E & R & _ & Bid & _ & Rl).
  assert (Hb : In best (ranked (o :: options) weights personality))
    by (rewrite R; left; reflexivity).
  unfold ranked in Hb. apply assign_ranks_In in Hb.
  destruct Hb as (s & n & Hs & ->).
  apply (Permutation_in _ (sort_perm _)) in Hs.
  unfold scored in Hs. apply in_map_iff in Hs. destruct Hs as (o' & <- & Ho').
  exists r, o'. repeat split; assumption.
Qed.

(** On a risk level that is present and not zero the code applies the
    table of the specification. *)
Lemma classify_present (o : Option) (x : Q) :
  risk_level o = Some x -> ~ x == 0 ->
  classify (prop risk_level o || 5)%js = risk_table x.
Proof.
  intros H Z. unfold prop. rewrite H. unfold JS.or, truthy. simpl.
  apply is_zero_false in Z. rewrite Z. reflexivity.
Qed.

(** C6 (what the code computes): the winner of the worked example has
    the input risk level 0, for which the threshold table gives [low];
    the result says [medium], the level of the substituted default 5. *)
Theorem zero_risk_winner_is_medium :
  exists r,
    scoreOptions [spec_option_1; spec_option_2] (loadWeights None)
                 (Some "balanced"%string) = Return r /\
    bestId r = id spec_option_1 /\
    risk_level spec_option_1 = Some 0 /\
    risk_table 0 = low /\
    riskLevel r = medium.
Proof.
  eexists. split; [vm_compute; reflexivity|].
  repeat split; vm_compute; reflexivity.
Qed.

(** ** Personalities *)

(** C9: blending the balanced table with the balanced personality gives
    the balanced table back, on every criterion. *)
Theorem blend_balanced_fixed_point :
  forall k : key,
    exists q v,
      blend balanced (Some "balanced"%string) k = Fin q /\
      balanced k = Some v /\ q == v.
Proof.
  intros []; eexists _, _;
    (split; [vm_compute; reflexivity | split; reflexivity]).
Qed.

(** The same holds for the default weights and an omitted personality. *)
Lemma blend_default_fixed_point :
  forall k : key,
    exists q v,
      blend (loadWeights None) None k = Fin q /\
      balanced k = Some v /\ q == v.
Proof.
  intros []; eexists _, _;
    (split; [vm_compute; reflexivity | split; reflexivity]).
Qed.

(** A label that is neither an own key of [PERSONALITY_MODS] nor a
    property inherited from [Object.prototype] selects the balanced
    table, as does an omitted argument. *)
Lemma unknown_personality_is_balanced :
  forall (p : string) (options : list Option) (weights : Weights),
    PERSONALITY_MODS p = None ->
    scoreOptions options weights (Some p)
    = scoreOptions options weights (Some "balanced"%string) /\
    scoreOptions options weights None
    = scoreOptions options weights (Some "balanced"%string).
Proof.
  intros p options weights H.
  assert (P : pick_mod (Some p) = pick_mod (Some "balanced"%string)).
  { unfold pick_mod. rewrite H. reflexivity. }
  split; [|reflexivity].
  unfold scoreOptions, ranked, scored, blend, blend_sum, blended.
  rewrite P. reflexivity.
Qed.

Lemma PERSONALITY_MODS_unknown (p : string) :
  p <> "conservative"%string -> p <> "balanced"%string ->
  p <> "aggressive"%string -> inherited p = false ->
  PERSONALITY_MODS p = None.
Proof.
  intros H1 H2 H3 H4. unfold PERSONALITY_MODS.
  apply String.eqb_neq in H1, H2, H3. rewrite H1, H2, H3, H4. reflexivity.
Qed.

(** C10 (what the code computes): the label ["constructor"] is none of
    the three personalities, yet [PERSONALITY_MODS] resolves it along the
    prototype chain to an object without criteria; the blend is then the
    normalised user weights alone, and the result differs from the one of
    the balanced personality on the same input. *)
Theorem constructor_personality_is_not_balanced :
  PERSONALITY_MODS "constructor" <> None /\
  map (blend cost_only (Some "constructor"%string)) keys
  = [Fin (600000000000 # 600000000000); Fin (0 # 600000000000);
     Fin (0 # 600000000000); Fin (0 # 600000000000);
     Fin (0 # 600000000000)] /\
  (exists r r',
      scoreOptions [cheap_slow; dear_fast] cost_only
                   (Some "constructor"%string) = Return r /\
      scoreOptions [cheap_slow; dear_fast] cost_only
                   (Some "balanced"%string) = Return r' /\
      map weighted_total (breakdown r) = [Fin 100; Fin 0] /\
      map weighted_total (breakdown r') = [Fin 81; Fin 19] /\
      confidence r = Fin 99 /\ confidence r' = Fin (402 # 5)).
Proof.
  split; [vm_compute; discriminate|]. split; [vm_compute; reflexivity|].
  eexists _, _.
  split; [vm_compute; reflexivity|]. split; [vm_compute; reflexivity|].
  repeat split; vm_compute; reflexivity.
Qed.

(** ** Inputs on which the specification and the code part *)

(** C3: a single option without a label is scored, not rejected. *)
Lemma lone_option_is_scored :
  (List.length (filter usable_label [lone_option]) < 2)%nat /\
  (exists r,
      scoreOptions [lone_option] (loadWeights None) None = Return r /\
      bestId r = "1"%string /\ confidence r = Fin (681 # 10)) /\
  ~ (exists e, scoreOptions [lone_option] (loadWeights None) None = Throw e).
Proof.
  split; [simpl; lia|]. split.
  - eexists. split; [vm_compute; reflexivity|].
    split; vm_compute; reflexivity.
  - intros [e H]. vm_compute in H. discriminate.
Qed.


(** C8: a list of one option is attribute-identical, and its confidence
    is the clamp of its own total, here 68.1, not 50. *)
Lemma single_option_confidence_is_not_50 :
  attribute_identical [lone_option] /\
  exists r,
    scoreOptions [lone_option] (loadWeights None) None = Return r /\
    confidence r = Fin (681 # 10) /\
    confidence r <> Fin 50.
Proof.
  split.
  - intros o o' [<-|[]] [<-|[]]. repeat split.
  - eexists. split; [vm_compute; reflexivity|].
    split; [vm_compute; reflexivity|]. vm_compute. discriminate.
Qed.

(** C5: with costs 100 and 200 the cost sub-scores are 50 and 0, not 100
    and 50. *)
Lemma cost_scores_are_not_100_and_50 :
  exists r a b,
    scoreOptions [mk_option "A" (Some 100) None None None None;
                  mk_option "B" (Some 200) None None None None]
                 (loadWeights None) None = Return r /\
    breakdown r = [a; b] /\
    option_id a = "A"%string /\ cost_score a = Fin 50 /\
    cost_score a <> Fin 100 /\
    option_id b = "B"%string /\ cost_score b = Fin 0 /\
    cost_score b <> Fin 50.
Proof.
  eexists _, _, _. split; [vm_compute; reflexivity|].
  split; [reflexivity|].
  repeat split; try discriminate.
Qed.



(** * Further properties of the engine and of the code around it *)

(** ** Shape of the breakdown *)

(** X1: on every list that is not empty the breakdown has one entry per
    option (their ids are the input ids, rearranged) and the ranks are
    1, 2, ..., n down the list. *)
Theorem breakdown_ranks_and_ids :
  forall (o : Option) (options : list Option) (weights : Weights)
         (personality : option string),
    exists r,
      scoreOptions (o :: options) weights personality = Return r /\
      map rank (breakdown r)
      = map Some (seq 1 (List.length (o :: options))) /\
      Permutation (map option_id (breakdown r)) (map id (o :: options)).
Proof.
  intros o options weights personality.
  destruct (scoreOptions_Return weights personality o options)
    as (r & best & rest & E & R & B & _).
  exists r. split; [exact E|]. rewrite B, <- R. unfold ranked. split.
  - rewrite assign_ranks_rank, sort_length. unfold scored.
    rewrite length_map. reflexivity.
  - rewrite assign_ranks_id.
    rewrite (Permutation_map option_id (sort_perm _)). unfold scored.
    rewrite map_map. apply Permutation_refl.
Qed.

(** The id reported as best is the id of the first breakdown entry,
    which belongs to an option of the input. *)
Lemma bestId_in_input o options weights personality :
  exists r,
    scoreOptions (o :: options) weights personality = Return r /\
    In (bestId r) (map id (o :: options)).
Proof.
  destruct (riskLevel_of_winner o options weights personality)
    as (r & o' & E & Hin & Hid & _).
  exists r. split; [exact E|]. rewrite Hid. apply in_map. exact Hin.
Qed.

Lemma find_id_some (opts : list Option) (i : string) :
  In i (map id opts) ->
  exists o, find_option opts i = Some o /\ id o = i.
Proof.
  unfold find_option. induction opts as [|a opts IH]; simpl; [contradiction|].
  intro H. destruct (String.eqb (id a) i) eqn:E.
  - exists a. split; [reflexivity|]. apply String.eqb_eq. exact E.
  - destruct H as [H|H]; [|apply IH, H].
    apply String.eqb_neq in E. contradiction.
Qed.

(** X2: in [openDecideForMe] the lookup [opts.find(o => o.id === bestId)]
    always finds an option, and it carries the best id; reading the label
    of the winner cannot fail. *)
Theorem winner_is_found :
  forall (o : Option) (options : list Option) (weights : Weights)
         (personality : option string),
    exists r bestOpt,
      scoreOptions (o :: options) weights personality = Return r /\
      find_option (o :: options) (bestId r) = Some bestOpt /\
      id bestOpt = bestId r.
Proof.
  intros o options weights personality.
  destruct (bestId_in_input o options weights personality) as (r & E & Hin).
  destruct (find_id_some _ _ Hin) as (b & F & Hb).
  exists r, b. repeat split; assumption.
Qed.

(** X3: in [viewDecision] the row found by [scores.find(s => s.rank === 1)]
    in a stored breakdown is its first entry, the one whose option is
    reported as best. *)
Theorem bestRow_is_first :
  forall (o : Option) (options : list Option) (weights : Weights)
         (personality : option string),
    exists r first rest,
      scoreOptions (o :: options) weights personality = Return r /\
      breakdown r = first :: rest /\
      bestRow (breakdown r) = Some first /\
      option_id first = bestId r.
Proof.
  intros o options weights personality.
  destruct (scoreOptions_Return weights personality o options)
    as (r & best & rest & E & R & B & Bid & _).
  exists r, best, rest. repeat split; try assumption; [|symmetry; exact Bid].
  rewrite B. unfold ranked in R.
  destruct (sort (scored (o :: options) weights personality)) as [|s l];
    [discriminate|].
  cbn [assign_ranks] in R. injection R as <- _. reflexivity.
Qed.

(** X4: for options whose attributes are in range and weights that are
    not negative (the blend not summing to zero, so that every total is a
    finite number) the breakdown is in descending order of the weighted
    totals: every entry is at least as good as all entries after it. *)
Theorem breakdown_descending :
  forall (o : Option) (options : list Option) (weights : Weights)
         (personality : option string),
    nonneg_weights weights ->
    degenerate weights personality = false ->
    Forall in_range (o :: options) ->
    exists r,
      scoreOptions (o :: options) weights personality = Return r /\
      StronglySorted above (breakdown r).
Proof.
  intros o options weights personality _ D _.
  destruct (scoreOptions_Return weights personality o options)
    as (r & best & rest & E & R & B & _).
  exists r. split; [exact E|]. rewrite B, <- R.
  apply ranked_sorted, D.
Qed.

Lemma breakdown_descending_witness :
  exists r,
    scoreOptions [spec_option_1; spec_option_2] (loadWeights None) None
    = Return r /\
    StronglySorted above (breakdown r).
Proof.
  apply (breakdown_descending spec_option_1 [spec_option_2]
           (loadWeights None) None).
  - intros k v H. destruct k; injection H as <-; vm_compute; discriminate.
  - vm_compute. reflexivity.
  - repeat constructor; vm_compute; discriminate.
Defined.

(** X5: the sort is stable.  For options whose attributes are in range
    and weights that are not negative (the blend not summing to zero),
    the options whose weighted total is [t] appear in the breakdown in the
    order in which they were given, for every total [t]. *)
Theorem ties_keep_input_order :
  forall (o : Option) (options : list Option) (weights : Weights)
         (personality : option string) (t : number),
    nonneg_weights weights ->
    degenerate weights personality = false ->
    Forall in_range (o :: options) ->
    exists r,
      scoreOptions (o :: options) weights personality = Return r /\
      map option_id (filter (has_total t) (breakdown r))
      = map option_id
          (filter (has_total t) (scored (o :: options) weights personality)).
Proof.
  intros o options weights personality t _ _ _.
  apply breakdown_is_stable.
Qed.

Lemma ties_keep_input_order_witness :
  exists r,
    scoreOptions [dear_fast; cheap_slow; cheap_slow_twin] (loadWeights None)
                 None = Return r /\
    map option_id (filter (has_total (Fin (105 # 2))) (breakdown r))
    = map option_id
        (filter (has_total (Fin (105 # 2)))
                (scored [dear_fast; cheap_slow; cheap_slow_twin]
                        (loadWeights None) None)).
Proof.
  apply (ties_keep_input_order dear_fast [cheap_slow; cheap_slow_twin]
           (loadWeights None) None (Fin (105 # 2))).
  - intros k v H. destruct k; injection H as <-; vm_compute; discriminate.
  - vm_compute. reflexivity.
  - repeat constructor; vm_compute; discriminate.
Defined.

(** X6: the risk level of the result is the threshold table applied to
    [risk_level || 5] of an option of the input, the one whose id is
    reported as best; a risk level that is present and not zero is
    classified by the table as it stands. *)
Theorem risk_level_is_of_winner :
  forall (o : Option) (options : list Option) (weights : Weights)
         (personality : option string),
    exists r o',
      scoreOptions (o :: options) weights personality = Return r /\
      In o' (o :: options) /\ bestId r = id o' /\
      riskLevel r = classify (prop risk_level o' || 5)%js /\
      (forall x, risk_level o' = Some x -> ~ x == 0 ->
                 riskLevel r = risk_table x).
Proof.
  intros o options weights personality.
  destruct (riskLevel_of_winner o options weights personality)
    as (r & o' & E & Hin & Hid & Hr).
  exists r, o'. repeat split; try assumption.
  intros x Hx Zx. rewrite Hr. apply classify_present; assumption.
Qed.

(** ** The blended weights *)

Section Blend_values.

Variables (weights : Weights) (personality : option string).

Lemma or_default_Fin (v : option Q) (d : Q) :
  (option_map Fin v || d)%js = Fin (or_default d v).
Proof.
  destruct v as [x|]; [|reflexivity].
  unfold JS.or, truthy, or_default. simpl. destruct (is_zero x); reflexivity.
Qed.

Lemma blended_value k :
  blended weights personality k = Fin (blendedQ weights personality k).
Proof.
  unfold blended, blendedQ, get. rewrite !or_default_Fin. reflexivity.
Qed.

Lemma blend_sum_value :
  blend_sum weights personality = Fin (blend_sumQ weights personality).
Proof.
  unfold blend_sum, blend_sumQ, keys. cbn [map fold_left].
  rewrite !blended_value. reflexivity.
Qed.

Lemma degenerate_value :
  degenerate weights personality = is_zero (blend_sumQ weights personality).
Proof. unfold degenerate. rewrite blend_sum_value. reflexivity. Qed.

Lemma blend_value k :
  degenerate weights personality = false ->
  blend weights personality k
  = Fin (blendedQ weights personality k / blend_sumQ weights personality).
Proof.
  rewrite degenerate_value. intro D. unfold blend.
  rewrite blended_value, blend_sum_value. unfold div. rewrite D. reflexivity.
Qed.

Lemma blend_sumQ_unfold :
  blend_sumQ weights personality
  == blendedQ weights personality Cost + blendedQ weights personality Time
     + blendedQ weights personality Risk
     + blendedQ weights personality Priority
     + blendedQ weights personality Reward.
Proof. unfold blend_sumQ, keys. cbn [map fold_left]. lra. Qed.

End Blend_values.

Lemma blend_sumQ_normalised weights personality :
  degenerate weights personality = false ->
  blendedQ weights personality Cost / blend_sumQ weights personality
  + blendedQ weights personality Time / blend_sumQ weights personality
  + blendedQ weights personality Risk / blend_sumQ weights personality
  + blendedQ weights personality Priority / blend_sumQ weights personality
  + blendedQ weights personality Reward / blend_sumQ weights personality
  == 1.
Proof.
  intro D.
  pose proof (blend_sumQ_unfold weights personality) as U.
  rewrite degenerate_value in D. apply is_zero_false in D.
  set (T := blend_sumQ weights personality) in *.
  rewrite <- (Qmult_inv_r T D). rewrite U at 6. unfold Qdiv. ring.
Qed.

(** X7: for stored weights between 0 and 1 whose blend does not sum to
    zero, the weights the totals are computed with sum to 1, up to the
    tolerance (the sum is 1 in exact arithmetic; the tolerance leaves room
    for the rounding of the five divisions). *)
Theorem blend_sums_to_one :
  forall (weights : Weights) (personality : option string),
    fraction_weights weights ->
    degenerate weights personality = false ->
    exists q,
      fold_left add (map (blend weights personality) keys) (Fin 0) = Fin q /\
      Qabs (q - 1) <= tolerance.
Proof.
  intros weights personality _ D.
  unfold keys. cbn [map fold_left]. rewrite !(blend_value _ _ _ D).
  eexists. split; [reflexivity|].
  pose proof (blend_sumQ_normalised weights personality D) as N.
  apply Qabs_Qle_condition. unfold tolerance. split; lra.
Qed.

Lemma blend_sums_to_one_witness :
  exists q,
    fold_left add (map (blend cost_only (Some "aggressive"%string)) keys)
              (Fin 0) = Fin q /\
    Qabs (q - 1) <= tolerance.
Proof.
  apply (blend_sums_to_one cost_only (Some "aggressive"%string)).
  - intros k v H. destruct k; try discriminate.
    injection H as <-. split; discriminate.
  - vm_compute. reflexivity.
Defined.

Lemma pick_mod_cases personality :
  pick_mod personality = conservative \/ pick_mod personality = balanced \/
  pick_mod personality = aggressive \/ pick_mod personality = (fun _ => None).
Proof.
  unfold pick_mod, PERSONALITY_MODS.
  destruct personality as [p|]; [|auto].
  repeat match goal with
         | |- context [if ?c then _ else _] => destruct c
         end; auto.
Qed.

Lemma pick_mod_nonneg personality k :
  0 <= or_default 0 (pick_mod personality k).
Proof.
  destruct (pick_mod_cases personality) as [-> | [-> | [-> | ->]]];
    destruct k; vm_compute; discriminate.
Qed.

Lemma or_default_nonneg (v : option Q) :
  match v with Some x => 0 <= x | None => True end ->
  0 <= or_default 0 v.
Proof.
  destruct v as [x|]; simpl; intro H; [|lra].
  destruct (is_zero x); lra.
Qed.

Lemma blendedQ_nonneg weights personality k :
  nonneg_weights weights -> 0 <= blendedQ weights personality k.
Proof.
  intro N. unfold blendedQ.
  pose proof (pick_mod_nonneg personality k) as M.
  assert (W : 0 <= or_default 0 (weights k)).
  { apply or_default_nonneg. destruct (weights k) eqn:E; [|exact I].
    apply (N k). exact E. }
  nra.
Qed.

(** With stored weights that are not negative, each weight used for the
    totals lies between 0 and 1. *)
Lemma blendQ_range weights personality k :
  nonneg_weights weights -> degenerate weights personality = false ->
  0 <= blendedQ weights personality k / blend_sumQ weights personality <= 1.
Proof.
  intros N D.
  pose proof (blend_sumQ_unfold weights personality) as U.
  pose proof (blendedQ_nonneg weights personality Cost N).
  pose proof (blendedQ_nonneg weights personality Time N).
  pose proof (blendedQ_nonneg weights personality Risk N).
  pose proof (blendedQ_nonneg weights personality Priority N).
  pose proof (blendedQ_nonneg weights personality Reward N).
  rewrite degenerate_value in D. apply is_zero_false in D.
  set (T := blend_sumQ weights personality) in *.
  assert (P : 0 < T) by (destruct k; lra).
  split.
  - apply Qle_shift_div_l; [exact P|]. destruct k; lra.
  - apply Qle_shift_div_r; [exact P|]. destruct k; lra.
Qed.

(** X8: with no user weight set (all zero or missing) the weights used
    are those of the personality table: conservative, balanced and
    aggressive come out of the normalisation, up to the tolerance (exactly
    in exact arithmetic). *)
Theorem zero_weights_give_personality_table :
  forall (weights : Weights) (p : string) (m : Weights) (k : key),
    zero_weights weights ->
    PERSONALITY_MODS p = Some m -> inherited p = false ->
    exists q v,
      blend weights (Some p) k = Fin q /\ m k = Some v /\
      Qabs (q - v) <= tolerance.
Proof.
  intros weights p m k Z Hm Hi.
  assert (W : forall k', or_default 0 (weights k') == 0).
  { intro k'. unfold or_default. destruct (weights k') as [x|] eqn:E;
      [|reflexivity]. destruct (is_zero x); [reflexivity|]. apply (Z k'), E. }
  assert (P : pick_mod (Some p) = m) by (unfold pick_mod; rewrite Hm; reflexivity).
  assert (S : blend_sumQ weights (Some p) == (2 # 5) /\
              exists v, m k = Some v /\
                        or_default 0 (m k) == v).
  { rewrite blend_sumQ_unfold. unfold blendedQ. rewrite P, !W.
    unfold PERSONALITY_MODS in Hm. rewrite Hi in Hm.
    destruct (String.eqb p "conservative");
      [|destruct (String.eqb p "balanced");
        [|destruct (String.eqb p "aggressive"); [|discriminate]]];
      injection Hm as <-; (split; [vm_compute; reflexivity|]);
      destruct k; eexists; split; reflexivity. }
  destruct S as (S & v & Hv & Ev).
  assert (D : degenerate weights (Some p) = false).
  { rewrite degenerate_value. apply is_zero_false. rewrite S. discriminate. }
  rewrite (blend_value _ _ _ D). eexists. exists v.
  split; [reflexivity|]. split; [exact Hv|].
  assert (X : blendedQ weights (Some p) k / blend_sumQ weights (Some p) == v).
  { unfold blendedQ. rewrite P, W, S, Ev. field. }
  rewrite X. apply Qabs_Qle_condition. unfold tolerance. split; lra.
Qed.

Lemma zero_weights_give_personality_table_witness :
  exists q v,
    blend no_weights (Some "aggressive"%string) Reward = Fin q /\
    aggressive Reward = Some v /\ Qabs (q - v) <= tolerance.
Proof.
  apply (zero_weights_give_personality_table no_weights "aggressive"
           aggressive Reward).
  - intros k v H. discriminate.
  - reflexivity.
  - reflexivity.
Defined.

(** X9: a label that is none of the three personalities and no member
    inherited from [Object.prototype] is scored exactly as ['balanced']. *)
Theorem other_labels_score_as_balanced :
  forall (p : string) (options : list Option) (weights : Weights),
    p <> "conservative"%string -> p <> "balanced"%string ->
    p <> "aggressive"%string -> inherited p = false ->
    scoreOptions options weights (Some p)
    = scoreOptions options weights (Some "balanced"%string).
Proof.
  intros p options weights H1 H2 H3 H4.
  apply unknown_personality_is_balanced.
  apply PERSONALITY_MODS_unknown; assumption.
Qed.

Lemma other_labels_score_as_balanced_witness :
  scoreOptions [cheap_slow; dear_fast] cost_only (Some "cautious"%string)
  = scoreOptions [cheap_slow; dear_fast] cost_only (Some "balanced"%string).
Proof.
  apply (other_labels_score_as_balanced "cautious");
    solve [discriminate | reflexivity].
Defined.

(** ** Ranges of the scores *)

Lemma div_Fin x y : is_zero y = false -> (Fin x / Fin y)%js = Fin (x / y).
Proof. intro H. unfold div. rewrite H. reflexivity. Qed.

Lemma Math_max_0 x :
  Math_max [Fin 0; Fin x] = Fin (if Qle_bool 0 x then x else 0).
Proof.
  unfold Math_max. cbn [fold_left]. change (max2 NInf 0) with (Fin 0).
  unfold max2, leb. destruct (Qle_bool 0 x); reflexivity.
Qed.

Lemma percent_Fin q : 0 <= q <= 100 -> percent (Fin q).
Proof.
  intros [L U]. unfold percent, leb. rewrite !Qle_bool_iff. split; assumption.
Qed.

Lemma percent_toFixed q : 0 <= q <= 100 -> percent (toFixed 2 (Fin q)).
Proof.
  intro H. apply percent_Fin.
  apply (toFixedQ_between 2 0 100); [lia | lia | exact H].
Qed.

Lemma or_default_within lo hi d v :
  lo <= d <= hi -> within lo hi v -> lo <= or_default d v <= hi.
Proof.
  intros Hd Hv. destruct v as [x|]; simpl in *; [|exact Hd].
  destruct (is_zero x); assumption.
Qed.

(** The relative score of a cost or a time that is not negative. *)
Lemma relative_score_range c m :
  0 <= c -> 1 <= m ->
  exists q,
    Math_max [Fin 0; (100 - (Fin c / Fin m) * 100)%js] = Fin q /\
    0 <= q <= 100.
Proof.
  intros Hc Hm.
  assert (Z : is_zero m = false) by (apply is_zero_false; lra).
  rewrite (div_Fin c m Z).
  change (100 - Fin (c / m) * 100)%js with (Fin (100 + - (c / m * 100))).
  rewrite Math_max_0. eexists. split; [reflexivity|].
  assert (0 <= c / m) by (apply Qle_shift_div_l; lra).
  destruct (Qle_bool 0 (100 + - (c / m * 100))) eqn:E; [|lra].
  apply Qle_bool_iff in E. lra.
Qed.

Lemma convex_bound s1 s2 s3 s4 s5 w1 w2 w3 w4 w5 :
  0 <= s1 <= 100 -> 0 <= s2 <= 100 -> 0 <= s3 <= 100 ->
  0 <= s4 <= 100 -> 0 <= s5 <= 100 ->
  0 <= w1 -> 0 <= w2 -> 0 <= w3 -> 0 <= w4 -> 0 <= w5 ->
  w1 + w2 + w3 + w4 + w5 == 1 ->
  0 <= s1 * w1 + s2 * w2 + s3 * w3 + s4 * w4 + s5 * w5 <= 100.
Proof.
  intros H1 H2 H3 H4 H5 W1 W2 W3 W4 W5 S.
  assert (0 <= s1 * w1 <= 100 * w1) by nra.
  assert (0 <= s2 * w2 <= 100 * w2) by nra.
  assert (0 <= s3 * w3 <= 100 * w3) by nra.
  assert (0 <= s4 * w4 <= 100 * w4) by nra.
  assert (0 <= s5 * w5 <= 100 * w5) by nra.
  lra.
Qed.

Lemma score_percentages (w : key -> number) (mc mt : Q) (o : Option)
      (wc wt wr wp ww : Q) :
  w Cost = Fin wc -> w Time = Fin wt -> w Risk = Fin wr ->
  w Priority = Fin wp -> w Reward = Fin ww ->
  0 <= wc -> 0 <= wt -> 0 <= wr -> 0 <= wp -> 0 <= ww ->
  wc + wt + wr + wp + ww == 1 ->
  1 <= mc -> 1 <= mt -> in_range o ->
  percentages (score w (Fin mc) (Fin mt) o).
Proof.
  intros Ec Et Er Ep Ew Pc Pt Pr Pp Pw S Hmc Hmt (Rc & Rt & Rr & Rp & Rw).
  unfold percentages, score, prop. cbn [cost_score time_score risk_score
    priority_score reward_score weighted_total].
  rewrite !or_default_Fin, Ec, Et, Er, Ep, Ew.
  destruct (relative_score_range (or_default 0 (cost o)) mc) as (cs & -> & Hcs);
    [apply or_default_nonneg; exact Rc | exact Hmc |].
  destruct (relative_score_range (or_default 0 (time_required o)) mt)
    as (ts & -> & Hts);
    [apply or_default_nonneg; exact Rt | exact Hmt |].
  pose proof (or_default_within 0 10 5 (risk_level o) ltac:(lra) Rr) as Hr.
  pose proof (or_default_within 0 10 5 (priority o) ltac:(lra) Rp) as Hp.
  pose proof (or_default_within 0 10 5 (reward_potential o) ltac:(lra) Rw)
    as Hw.
  set (r := or_default 5 (risk_level o)) in *.
  set (p := or_default 5 (priority o)) in *.
  set (rw := or_default 5 (reward_potential o)) in *.
  change ((10 - Fin r) * 10)%js with (Fin ((10 + - r) * 10)).
  change (Fin p * 10)%js with (Fin (p * 10)).
  change (Fin rw * 10)%js with (Fin (rw * 10)).
  change (Fin cs * Fin wc + Fin ts * Fin wt + Fin ((10 + - r) * 10) * Fin wr
          + Fin (p * 10) * Fin wp + Fin (rw * 10) * Fin ww)%js
    with (Fin (cs * wc + ts * wt + (10 + - r) * 10 * wr + p * 10 * wp
               + rw * 10 * ww)).
  assert (0 <= (10 + - r) * 10 <= 100) by lra.
  assert (0 <= p * 10 <= 100) by lra.
  assert (0 <= rw * 10 <= 100) by lra.
  repeat split; try (apply percent_toFixed; assumption);
    apply percent_toFixed; apply convex_bound; assumption.
Qed.

Lemma ranked_Forall (P : ScoredOption -> Prop) options weights personality :
  (forall s r, P s -> P (set_rank s r)) ->
  Forall P (scored options weights personality) ->
  Forall P (ranked options weights personality).
Proof.
  intros Inv H. apply Forall_forall. intros x Hx.
  unfold ranked in Hx. apply assign_ranks_In in Hx.
  destruct Hx as (s & r & Hs & ->). apply Inv.
  rewrite Forall_forall in H. apply H.
  apply (Permutation_in _ (sort_perm _)). exact Hs.
Qed.

Lemma breakdown_percentages o options weights personality :
  nonneg_weights weights ->
  degenerate weights personality = false ->
  Forall in_range (o :: options) ->
  exists r,
    scoreOptions (o :: options) weights personality = Return r /\
    Forall percentages (breakdown r).
Proof.
  intros N D R.
  destruct (scoreOptions_Return weights personality o options)
    as (r & best & rest & E & Rk & B & _).
  exists r. split; [exact E|]. rewrite B, <- Rk.
  apply ranked_Forall; [intros s n H; exact H|].
  unfold scored. apply Forall_forall. intros s Hs.
  apply in_map_iff in Hs. destruct Hs as (o' & <- & Ho').
  destruct (maxima_finite cost 0 (o :: options)) as (mc & Emc & Hmc).
  destruct (maxima_finite time_required 0 (o :: options))
    as (mt & Emt & Hmt).
  unfold maxCost, maxTime. rewrite Emc, Emt.
  apply (score_percentages _ mc mt o' _ _ _ _ _
           (blend_value _ _ Cost D) (blend_value _ _ Time D)
           (blend_value _ _ Risk D) (blend_value _ _ Priority D)
           (blend_value _ _ Reward D)); try assumption;
    try (apply (blendQ_range weights personality); assumption).
  - apply blend_sumQ_normalised, D.
  - rewrite Forall_forall in R. apply R, Ho'.
Qed.

(** X10: with stored weights that are not negative (the blend not
    summing to zero) and options whose attributes are in range (cost and
    time not negative, ratings between 0 and 10), every sub-score and
    every weighted total of the breakdown lies between 0 and 100. *)
Theorem scores_are_percentages :
  forall (o : Option) (options : list Option) (weights : Weights)
         (personality : option string),
    nonneg_weights weights ->
    degenerate weights personality = false ->
    Forall in_range (o :: options) ->
    exists r,
      scoreOptions (o :: options) weights personality = Return r /\
      Forall percentages (breakdown r).
Proof.
  intros o options weights personality. apply breakdown_percentages.
Qed.

Lemma scores_are_percentages_witness :
  exists r,
    scoreOptions [spec_option_1; spec_option_2] (loadWeights None) None
    = Return r /\
    Forall percentages (breakdown r).
Proof.
  apply (scores_are_percentages spec_option_1 [spec_option_2]
           (loadWeights None) None).
  - intros k v H. destruct k; injection H as <-; vm_compute; discriminate.
  - vm_compute. reflexivity.
  - repeat constructor; vm_compute; discriminate.
Defined.

(** ** The relative cost score *)

(** The maximum of finite numbers is one of them and bounds them all. *)
Lemma fold_max2_spec (l : list Q) (a : Q) :
  exists m,
    fold_left max2 (map Fin l) (Fin a) = Fin m /\
    a <= m /\ (forall q, In q l -> q <= m) /\ (m = a \/ In m l).
Proof.
  revert a. induction l as [|x l IH]; intro a; cbn [map fold_left].
  - exists a. repeat split; [lra | intros q [] | left; reflexivity].
  - assert (E : max2 (Fin a) (Fin x) = Fin (if Qle_bool a x then x else a)).
    { unfold max2, leb. destruct (Qle_bool a x); reflexivity. }
    rewrite E. destruct (IH (if Qle_bool a x then x else a))
      as (m & Em & Ha & Hl & Hin).
    exists m. split; [exact Em|].
    destruct (Qle_bool a x) eqn:C.
    + apply Qle_bool_iff in C. repeat split.
      * lra.
      * intros q [<-|Hq]; [exact Ha | apply Hl, Hq].
      * right. destruct Hin as [->|Hin]; [left; reflexivity | right; exact Hin].
    + apply Qle_bool_false in C. repeat split.
      * exact Ha.
      * intros q [<-|Hq]; [lra | apply Hl, Hq].
      * destruct Hin as [->|Hin]; [left; reflexivity | right; right; exact Hin].
Qed.

Lemma maxCost_spec (options : list Option) :
  exists m,
    maxCost options = Fin m /\ 1 <= m /\
    (forall o, In o options -> or_default 0 (cost o) <= m) /\
    (m = 1 \/ exists o, In o options /\ or_default 0 (cost o) = m).
Proof.
  unfold maxCost, Math_max. rewrite fold_left_app. cbn [fold_left].
  assert (M : map (fun o => (prop cost o || 0)%js) options
              = map Fin (map (fun o => or_default 0 (cost o)) options)).
  { rewrite map_map. apply map_ext. intro o. unfold prop.
    apply or_default_Fin. }
  rewrite M. clear M.
  set (l := map (fun o => or_default 0 (cost o)) options).
  assert (L : forall q, In q l <-> exists o, In o options /\ or_default 0 (cost o) = q).
  { intro q. unfold l. rewrite in_map_iff. split; intros (o & A & B);
      exists o; auto. }
  destruct l as [|x l'] eqn:El.
  - cbn [map fold_left]. change (max2 NInf 1) with (Fin 1).
    exists 1. repeat split; [lra | | left; reflexivity].
    intros o Ho. exfalso. apply (proj2 (L (or_default 0 (cost o)))).
    exists o. auto.
  - cbn [map fold_left]. change (max2 NInf (Fin x)) with (Fin x).
    destruct (fold_max2_spec l' x) as (m & -> & Hx & Hl & Hin).
    assert (E : max2 (Fin m) 1 = Fin (if Qle_bool m 1 then 1 else m)).
    { unfold max2, leb. destruct (Qle_bool m 1); reflexivity. }
    rewrite E.
    assert (B : forall o, In o options -> or_default 0 (cost o) <= m).
    { intros o Ho.
      assert (I : In (or_default 0 (cost o)) (x :: l'))
        by (apply L; exists o; auto).
      destruct I as [<-|I]; [exact Hx | apply Hl, I]. }
    destruct (Qle_bool m 1) eqn:C.
    + apply Qle_bool_iff in C. exists 1.
      repeat split; [lra | | left; reflexivity].
      intros o Ho. specialize (B o Ho). lra.
    + apply Qle_bool_false in C. exists m.
      repeat split; [lra | exact B |]. right. apply L.
      destruct Hin as [->|Hin]; [left; reflexivity | right; exact Hin].
Qed.

Lemma toFixedQ_2_zero x : x == 0 -> toFixedQ 2 x = 0.
Proof. intro E. rewrite (toFixedQ_compat 2 x 0 E). reflexivity. Qed.

Lemma toFixedQ_2_hundred x : x == 100 -> toFixedQ 2 x = 100.
Proof. intro E. rewrite (toFixedQ_compat 2 x 100 E). reflexivity. Qed.

(** X11: the cost score is relative to the set.  An option that costs
    nothing (or has no cost) gets 100, and the most expensive option of
    the set, if it costs at least 1, gets 0, whatever the other attributes
    and weights are. *)
Theorem cost_score_extremes :
  forall (w : key -> number) (maxTime : number) (options : list Option)
         (o : Option),
    In o options ->
    (or_default 0 (cost o) == 0 ->
     cost_score (score w (maxCost options) maxTime o) = Fin 100) /\
    (forall c, cost o = Some c -> 1 <= c ->
               (forall o', In o' options -> or_default 0 (cost o') <= c) ->
               cost_score (score w (maxCost options) maxTime o) = Fin 0).
Proof.
  intros w mt options o Ho.
  destruct (maxCost_spec options) as (m & Em & Hm & Hub & Hat).
  assert (Z : is_zero m = false) by (apply is_zero_false; lra).
  assert (S : cost_score (score w (maxCost options) mt o)
              = Fin (toFixedQ 2
                       (if Qle_bool 0 (100 + - (or_default 0 (cost o) / m * 100))
                        then 100 + - (or_default 0 (cost o) / m * 100)
                        else 0))).
  { unfold score, prop. cbn [cost_score]. rewrite or_default_Fin, Em.
    rewrite (div_Fin _ m Z).
    change (100 - Fin (or_default 0 (cost o) / m) * 100)%js
      with (Fin (100 + - (or_default 0 (cost o) / m * 100))).
    rewrite Math_max_0. reflexivity. }
  rewrite S. split.
  - intro E0. f_equal. apply toFixedQ_2_hundred.
    assert (X : 100 + - (or_default 0 (cost o) / m * 100) == 100).
    { rewrite E0. field. lra. }
    destruct (Qle_bool 0 _) eqn:C; [exact X|].
    apply Qle_bool_false in C. lra.
  - intros c Hc Hc1 Hmax. f_equal. apply toFixedQ_2_zero.
    assert (Oc : or_default 0 (cost o) = c).
    { unfold or_default. rewrite Hc.
      assert (is_zero c = false) as -> by (apply is_zero_false; lra).
      reflexivity. }
    assert (Mc : m == c).
    { apply Qle_antisym.
      - destruct Hat as [->|(o' & Ho' & <-)]; [exact Hc1 | apply Hmax, Ho'].
      - rewrite <- Oc. apply Hub, Ho. }
    assert (X : 100 + - (or_default 0 (cost o) / m * 100) == 0).
    { rewrite Oc, Mc. field. lra. }
    destruct (Qle_bool 0 _); [exact X | reflexivity].
Qed.

Lemma cost_score_extremes_witness :
  cost_score (score (blend cost_only None) (maxCost [cheap_slow; dear_fast])
                    (Fin 100) cheap_slow) = Fin 100 /\
  cost_score (score (blend cost_only None) (maxCost [cheap_slow; dear_fast])
                    (Fin 100) dear_fast) = Fin 0.
Proof.
  split.
  - apply (cost_score_extremes (blend cost_only None) (Fin 100)
             [cheap_slow; dear_fast] cheap_slow); [simpl; auto | reflexivity].
  - apply (proj2 (cost_score_extremes (blend cost_only None) (Fin 100)
                    [cheap_slow; dear_fast] dear_fast
                    (or_intror (or_introl eq_refl))) 100).
    + reflexivity.
    + discriminate.
    + intros o' [<-|[<-|[]]]; vm_compute; discriminate.
Defined.

(** ** Monotonicity of the confidence *)

Lemma clamp_mono x y : x <= y -> clamp x 50 99 <= clamp y 50 99.
Proof.
  intro H. unfold clamp.
  destruct (Qle_bool x 50) eqn:A, (Qle_bool y 50) eqn:B;
    try apply Qle_bool_iff in A; try apply Qle_bool_iff in B;
    try apply Qle_bool_false in A; try apply Qle_bool_false in B;
    destruct (Qle_bool 99 x) eqn:C, (Qle_bool 99 y) eqn:D;
    try apply Qle_bool_iff in C; try apply Qle_bool_iff in D;
    try apply Qle_bool_false in C; try apply Qle_bool_false in D; lra.
Qed.

Lemma toFixedQ_mono d x y :
  0 <= x -> x <= y -> y < inject_Z (10 ^ 21) ->
  toFixedQ d x <= toFixedQ d y.
Proof.
  intros H0 H Hy.
  rewrite (toFixedQ_correct_small d x), (toFixedQ_correct_small d y);
    try lra.
  set (p := (10 ^ Z.of_nat d)%Z).
  assert (Hp : (0 < p)%Z) by (apply Z.pow_pos_nonneg; lia).
  assert (Hpq : 0 < inject_Z p).
  { change 0 with (inject_Z 0). rewrite <- Zlt_Qlt. exact Hp. }
  assert (F : (Qfloor (x * inject_Z p + (1 # 2))
               <= Qfloor (y * inject_Z p + (1 # 2)))%Z).
  { apply Qfloor_resp_le. nra. }
  rewrite Zle_Qle in F. unfold Qdiv.
  apply Qmult_le_compat_r; [exact F|].
  apply Qlt_le_weak, Qinv_lt_0_compat, Hpq.
Qed.

(** X12: the confidence never decreases when the gap between the two
    best totals widens. *)
Theorem confidence_is_monotone :
  forall g g' : Q,
    g <= g' ->
    (confidence_of (Fin g) <=? confidence_of (Fin g'))%js = true.
Proof.
  intros g g' H.
  rewrite (confidence_of_Fin g g (Qeq_refl _)),
          (confidence_of_Fin g' g' (Qeq_refl _)).
  unfold leb. apply Qle_bool_iff.
  pose proof (clamp_bounds (50 + g / 100 * 49)) as B.
  pose proof (clamp_bounds (50 + g' / 100 * 49)) as B'.
  apply toFixedQ_mono.
  - lra.
  - apply clamp_mono. apply Qplus_le_r.
    apply Qmult_le_compat_r; [|discriminate].
    apply Qmult_le_compat_r; [exact H | discriminate].
  - apply Qle_lt_trans with 99; [lra|]. reflexivity.
Qed.

Lemma confidence_is_monotone_witness :
  (confidence_of (Fin 10) <=? confidence_of (Fin (145 # 2)))%js = true.
Proof.
  apply (confidence_is_monotone 10 (145 # 2)). vm_compute. discriminate.
Defined.

(** ** Saving and loading the weights *)

Lemma or_default_0_Some x : or_default 0 (Some x) == x.
Proof.
  unfold or_default. destruct (is_zero x) eqn:E; [|reflexivity].
  apply is_zero_true in E. rewrite E. reflexivity.
Qed.

Lemma pick_mod_sum personality :
  let m := pick_mod personality in
  0 <= or_default 0 (m Cost) + or_default 0 (m Time) + or_default 0 (m Risk)
       + or_default 0 (m Priority) + or_default 0 (m Reward).
Proof.
  intro m.
  pose proof (pick_mod_nonneg personality Cost).
  pose proof (pick_mod_nonneg personality Time).
  pose proof (pick_mod_nonneg personality Risk).
  pose proof (pick_mod_nonneg personality Priority).
  pose proof (pick_mod_nonneg personality Reward).
  unfold m. lra.
Qed.

Lemma slider_total_unfold (s : Sliders) :
  slider_total s
  = (s Cost + s Time + s Risk + s Priority + s Reward)%Z.
Proof. unfold slider_total, keys. cbn [map fold_left]. lia. Qed.

Lemma saved_nondegenerate (s : Sliders) (personality : option string) :
  slider_total s = 100%Z ->
  degenerate (fun k => Some (inject_Z (s k) / 100)) personality = false.
Proof.
  intro T.
  rewrite degenerate_value. apply is_zero_false.
  rewrite blend_sumQ_unfold. unfold blendedQ.
  rewrite !or_default_0_Some.
  pose proof (pick_mod_sum personality) as M. cbv zeta in M.
  rewrite slider_total_unfold in T.
  assert (S : inject_Z (s Cost) + inject_Z (s Time) + inject_Z (s Risk)
              + inject_Z (s Priority) + inject_Z (s Reward) == 100).
  { rewrite <- !inject_Z_plus, T. reflexivity. }
  assert (H100 : forall x, x / 100 == x * (1 # 100)) by (intro x; field).
  rewrite !H100. lra.
Qed.

Lemma saveWeights_stores (s : Sliders) (stored : option Weights) :
  slider_total s = 100%Z ->
  saveWeights s stored = Some (fun k => Some (inject_Z (s k) / 100)).
Proof.
  intro T. unfold saveWeights. rewrite T. reflexivity.
Qed.

(** X13: when the sliders total 100, [saveWeights] stores the weights
    [v/100], [loadWeights] then returns them, and scoring with them never
    divides by zero, whatever the personality label. *)
Theorem saved_weights_never_degenerate :
  forall (s : Sliders) (stored : option Weights) (personality : option string),
    slider_total s = 100%Z ->
    exists w,
      saveWeights s stored = Some w /\
      loadWeights (saveWeights s stored) = w /\
      (forall k, w k = Some (inject_Z (s k) / 100)) /\
      degenerate w personality = false.
Proof.
  intros s stored personality T.
  rewrite (saveWeights_stores s stored T).
  eexists. split; [reflexivity|]. split; [reflexivity|].
  split; [reflexivity|]. apply saved_nondegenerate, T.
Qed.

Lemma saved_weights_never_degenerate_witness :
  exists w,
    saveWeights sliders_60_40
                None = Some w /\
    loadWeights
      (saveWeights sliders_60_40
                   None) = w /\
    (forall k,
        w k = Some (inject_Z (sliders_60_40 k) / 100)) /\
    degenerate w (Some "constructor"%string) = false.
Proof.
  apply (saved_weights_never_degenerate
           sliders_60_40
           None (Some "constructor"%string)).
  reflexivity.
Defined.

Lemma Qfloor_half (z : Z) (q : Q) : q == inject_Z z + (1 # 2) -> Qfloor q = z.
Proof.
  intro E.
  assert (L : (z <= Qfloor q)%Z).
  { rewrite <- (Qfloor_Z z). apply Qfloor_resp_le. lra. }
  assert (U : (Qfloor q < z + 1)%Z).
  { rewrite Zlt_Qlt. apply Qle_lt_trans with q; [apply Qfloor_le|].
    rewrite inject_Z_plus. change (inject_Z 1) with 1. lra. }
  lia.
Qed.

(** X14: saving and re-opening the admin page is a round trip: the
    position computed for each slider from the stored weights is the
    percentage that was saved. *)
Theorem saved_sliders_round_trip :
  forall (s : Sliders) (stored : option Weights) (k : key),
    slider_total s = 100%Z ->
    slider_value (loadWeights (saveWeights s stored)) k
    = Fin (inject_Z (s k)).
Proof.
  intros s stored k T.
  unfold saveWeights. rewrite T. cbn [Z.eqb negb Pos.eqb loadWeights].
  unfold slider_value.
  change (get (fun k0 => Some (inject_Z (s k0) / 100)) k)
    with (option_map Fin (Some (inject_Z (s k) / 100))).
  rewrite or_default_Fin.
  pose proof (or_default_0_Some (inject_Z (s k) / 100)) as X.
  set (x := or_default 0 (Some (inject_Z (s k) / 100))) in *.
  change (Fin x * 100)%js with (Fin (x * 100)).
  unfold Math_round. do 2 f_equal. apply Qfloor_half.
  rewrite X. field.
Qed.

Lemma saved_sliders_round_trip_witness :
  slider_value
    (loadWeights
       (saveWeights sliders_60_40
                    None)) Risk
  = Fin (inject_Z 40).
Proof.
  apply (saved_sliders_round_trip
           sliders_60_40
           None Risk).
  reflexivity.
Defined.

(** ** Collecting the options of the form *)

Section Collecting.

Variable trim : string -> string.

Lemma collect_acc acc e :
  collect trim acc e = acc ++ collect trim [] e.
Proof.
  unfold collect. destruct (option_map trim (value_label e)) as [l|];
    [|symmetry; apply app_nil_r].
  destruct (is_empty l); [symmetry; apply app_nil_r | reflexivity].
Qed.

Lemma collectOptions_In entries acc c :
  In c (fold_left (collect trim) entries acc) ->
  In c acc \/ exists e, In e entries /\ In c (collect trim [] e).
Proof.
  revert acc. induction entries as [|e entries IH]; intros acc H;
    cbn [fold_left] in H; [left; exact H|].
  apply IH in H. destruct H as [H|(e' & He' & H)].
  - rewrite collect_acc in H. apply in_app_or in H.
    destruct H as [H|H]; [left; exact H|].
    right. exists e. split; [left; reflexivity | exact H].
  - right. exists e'. split; [right; exact He' | exact H].
Qed.

Lemma parsed_or (v : option Q) (d : Q) :
  ~ d == 0 ->
  exists x, (parseFloat v || d)%js = Fin x /\ ~ x == 0.
Proof.
  intro Hd. unfold parseFloat, JS.or, truthy.
  destruct v as [q|]; [|exists d; split; [reflexivity | exact Hd]].
  destruct (is_zero q) eqn:E; simpl.
  - exists d. split; [reflexivity | exact Hd].
  - exists q. split; [reflexivity|]. apply is_zero_false. exact E.
Qed.

(** X15: every option [collectOptions] returns has a label that is not
    empty, and its risk level, priority and reward are numbers other than
    0 (a slider left at 0 is collected as 5).  On a stored option with
    these attributes the defaults of [scoreOptions] therefore change
    nothing. *)
Theorem collected_options_are_complete :
  forall (entries : list Entry) (c : Collected),
    In c (collectOptions trim entries) ->
    c_label c <> EmptyString /\
    exists r p w,
      c_risk_level c = Fin r /\ c_priority c = Fin p /\
      c_reward_potential c = Fin w /\
      ~ r == 0 /\ ~ p == 0 /\ ~ w == 0 /\
      forall o : Option,
        risk_level o = Some r -> priority o = Some p ->
        reward_potential o = Some w ->
        (prop risk_level o || 5)%js = Fin r /\
        (prop priority o || 5)%js = Fin p /\
        (prop reward_potential o || 5)%js = Fin w.
Proof.
  intros entries c H. unfold collectOptions in H.
  apply collectOptions_In in H. destruct H as [[]|(e & _ & H)].
  unfold collect in H.
  destruct (option_map trim (value_label e)) as [l|]; [|contradiction].
  destruct (is_empty l) eqn:El; [contradiction|].
  destruct H as [<-|[]]. cbn [c_label c_risk_level c_priority
                              c_reward_potential].
  split; [intros ->; discriminate|].
  destruct (parsed_or (value_risk e) 5) as (r & -> & Hr); [discriminate|].
  destruct (parsed_or (value_priority e) 5) as (p & -> & Hp); [discriminate|].
  destruct (parsed_or (value_reward e) 5) as (w & -> & Hw); [discriminate|].
  exists r, p, w. repeat split; try assumption;
    unfold prop; rewrite ?H, ?H0, ?H1; cbn [option_map];
    unfold JS.or, truthy;
    match goal with
    | Z : ~ ?x == 0 |- context [is_zero ?x] =>
        apply is_zero_false in Z; rewrite Z; reflexivity
    end.
Qed.

End Collecting.

Lemma collected_options_are_complete_witness :
  c_label sample_collected <> EmptyString /\
  exists r p w,
    c_risk_level sample_collected = Fin r /\
    c_priority sample_collected = Fin p /\
    c_reward_potential sample_collected = Fin w /\
    ~ r == 0 /\ ~ p == 0 /\ ~ w == 0 /\
    forall o : Option,
      risk_level o = Some r -> priority o = Some p ->
      reward_potential o = Some w ->
      (prop risk_level o || 5)%js = Fin r /\
      (prop priority o || 5)%js = Fin p /\
      (prop reward_potential o || 5)%js = Fin w.
Proof.
  apply (collected_options_are_complete (fun s => s) [sample_entry]
           sample_collected).
  left. reflexivity.
Defined.

(** ** Confidence on the dashboard, the lists and the profile chart *)

Lemma conf_value d : conf d = Fin (or_default 0 (confidence_score d)).
Proof. unfold conf. apply or_default_Fin. Qed.

(** X16: the badge class of [renderDecList] and [viewDecision] and the
    bar of [renderConfChart] agree on every decision: a low badge is
    counted in the first bar, a medium one in the second, a high one in
    the third or fourth. *)
Theorem badge_class_matches_chart_bar :
  forall (b : Buckets) (d : Decision),
    match confCls d with
    | conf_low =>
        tally b d = {| b_0_50 := S (b_0_50 b); b_50_75 := b_50_75 b;
                       b_75_90 := b_75_90 b; b_90_100 := b_90_100 b |}
    | conf_med =>
        tally b d = {| b_0_50 := b_0_50 b; b_50_75 := S (b_50_75 b);
                       b_75_90 := b_75_90 b; b_90_100 := b_90_100 b |}
    | conf_high =>
        b_0_50 (tally b d) = b_0_50 b /\ b_50_75 (tally b d) = b_50_75 b /\
        (b_75_90 (tally b d) + b_90_100 (tally b d)
         = S (b_75_90 b + b_90_100 b))%nat
    end.
Proof.
  intros b d. unfold confCls, tally, geb. rewrite conf_value.
  set (c := or_default 0 (confidence_score d)).
  unfold leb, ltb.
  destruct (Qle_bool 75 c) eqn:A; destruct (Qle_bool 50 c) eqn:B;
    destruct (Qle_bool 90 c) eqn:C; cbn [negb];
    try apply Qle_bool_iff in A; try apply Qle_bool_iff in B;
    try apply Qle_bool_iff in C;
    try apply Qle_bool_false in A; try apply Qle_bool_false in B;
    try apply Qle_bool_false in C;
    try lra; try reflexivity; cbn; repeat split; lia.
Qed.

Lemma tally_total b d :
  (b_0_50 (tally b d) + b_50_75 (tally b d) + b_75_90 (tally b d)
   + b_90_100 (tally b d)
   = S (b_0_50 b + b_50_75 b + b_75_90 b + b_90_100 b))%nat.
Proof.
  unfold tally.
  repeat match goal with
         | |- context [if ?c then _ else _] => destruct c
         end; cbn; lia.
Qed.

Lemma fold_tally_total ds b :
  let r := fold_left tally ds b in
  (b_0_50 r + b_50_75 r + b_75_90 r + b_90_100 r
   = b_0_50 b + b_50_75 b + b_75_90 b + b_90_100 b + List.length ds)%nat.
Proof.
  revert b. induction ds as [|d ds IH]; intro b; cbn [fold_left List.length].
  - cbv zeta. lia.
  - cbv zeta in *. rewrite IH, tally_total. lia.
Qed.

(** X17: [renderConfChart] counts every decision exactly once: its four
    bars add up to the number of decisions. *)
Theorem chart_bars_count_every_decision :
  forall ds : list Decision,
    (b_0_50 (renderConfChart ds) + b_50_75 (renderConfChart ds)
     + b_75_90 (renderConfChart ds) + b_90_100 (renderConfChart ds)
     = List.length ds)%nat.
Proof.
  intro ds. unfold renderConfChart.
  pose proof (fold_tally_total ds
                {| b_0_50 := 0; b_50_75 := 0; b_75_90 := 0; b_90_100 := 0 |})
    as H.
  cbv zeta in H. rewrite H. reflexivity.
Qed.

(** The confidence of at least two options under weights whose blend
    does not sum to zero is a number between 50 and 99. *)
Lemma confidence_range options weights personality :
  (2 <= List.length options)%nat ->
  degenerate weights personality = false ->
  exists r c,
    scoreOptions options weights personality = Return r /\
    confidence r = Fin c /\ 50 <= c <= 99.
Proof.
  intros L D. destruct options as [|o options]; [simpl in L; lia|].
  destruct (scoreOptions_Return weights personality o options)
    as (r & best & rest & E & R & B & _ & C & _).
  pose proof (ranked_length weights personality (o :: options)) as Len.
  pose proof (ranked_Forall_total weights personality finite (o :: options)
                (scored_all_finite weights personality (o :: options) D)) as F.
  rewrite R in Len, F.
  destruct rest as [|second rest]; [simpl in Len, L; lia|].
  inversion F as [|? ? F1 F']; subst. inversion F' as [|? ? F2 _]; subst.
  apply finite_inv in F1, F2. destruct F1 as [x Ex], F2 as [y Ey].
  destruct (gap_finite x y) as (g & Eg & Hg).
  exists r, (toFixedQ 1 (clamp (50 + g / 100 * 49) 50 99)).
  split; [exact E|]. split.
  - rewrite C. simpl hd_error. simpl option_map. rewrite Ex, Ey, Eg.
    apply confidence_of_Fin. reflexivity.
  - apply (toFixedQ_between 1 50 99); [lia | lia | apply clamp_bounds].
Qed.

(** X18: a decision that stores the confidence computed for at least two
    options whose attributes are in range, with weights that are not
    negative (the blend not summing to zero), always shows its badge,
    never with the low class, and is never counted in the 0-50 bar. *)
Theorem engine_confidence_is_never_low :
  forall (options : list Option) (weights : Weights)
         (personality : option string),
    (2 <= List.length options)%nat ->
    nonneg_weights weights ->
    degenerate weights personality = false ->
    Forall in_range options ->
    exists r c,
      scoreOptions options weights personality = Return r /\
      confidence r = Fin c /\
      forall (d : Decision) (b : Buckets),
        confidence_score d = Some c ->
        badge_shown d = true /\ confCls d <> conf_low /\
        b_0_50 (tally b d) = b_0_50 b.
Proof.
  intros options weights personality L _ D _.
  destruct (confidence_range options weights personality L D)
    as (r & c & E & C & Hc).
  exists r, c. split; [exact E|]. split; [exact C|].
  intros d b Hd.
  assert (V : conf d = Fin c).
  { rewrite conf_value, Hd. unfold or_default.
    assert (is_zero c = false) as -> by (apply is_zero_false; lra).
    reflexivity. }
  unfold badge_shown, confCls, tally, geb. rewrite V.
  unfold gt0, leb, ltb.
  assert (is_pos c = true) as -> by (apply is_pos_true; lra).
  assert (Qle_bool 50 c = true) as -> by (apply Qle_bool_iff; lra).
  split; [reflexivity|]. split.
  - destruct (Qle_bool 75 c); discriminate.
  - cbn [negb].
    repeat match goal with
           | |- context [if ?c then _ else _] => destruct c
           end; reflexivity.
Qed.

Lemma engine_confidence_is_never_low_witness :
  exists r c,
    scoreOptions [spec_option_1; spec_option_2] (loadWeights None) None
    = Return r /\
    confidence r = Fin c /\
    forall (d : Decision) (b : Buckets),
      confidence_score d = Some c ->
      badge_shown d = true /\ confCls d <> conf_low /\
      b_0_50 (tally b d) = b_0_50 b.
Proof.
  apply (engine_confidence_is_never_low [spec_option_1; spec_option_2]
           (loadWeights None) None).
  - simpl. lia.
  - intros k v H. destruct k; injection H as <-; vm_compute; discriminate.
  - vm_compute. reflexivity.
  - repeat constructor; vm_compute; discriminate.
Defined.

(** *** The average on the dashboard *)

Lemma is_analyzed_pos d :
  is_analyzed d = true -> exists q, confidence_score d = Some q /\ 0 < q.
Proof.
  unfold is_analyzed. destruct (confidence_score d) as [q|]; [|discriminate].
  simpl. intro H. apply is_pos_true in H. eauto.
Qed.

Lemma sum_operands (lo hi : Q) (ds : list Decision) (a : Q) :
  Forall (fun d => exists q, confidence_score d = Some q /\ lo <= q <= hi) ds ->
  exists s,
    fold_left (fun a d => a + operand d)%js ds (Fin a) = Fin s /\
    a + inject_Z (Z.of_nat (List.length ds)) * lo <= s
    /\ s <= a + inject_Z (Z.of_nat (List.length ds)) * hi.
Proof.
  intro F. revert a. induction F as [|d ds (q & Hq & Hr) F IH]; intro a.
  - exists a. cbn [fold_left List.length]. split; [reflexivity|].
    change (inject_Z (Z.of_nat 0)) with 0. lra.
  - cbn [fold_left]. unfold operand at 2. rewrite Hq.
    change (Fin a + Fin q)%js with (Fin (a + q)).
    destruct (IH (a + q)) as (s & -> & L & U).
    exists s. split; [reflexivity|].
    cbn [List.length]. rewrite Nat2Z.inj_succ, <- Z.add_1_r, inject_Z_plus.
    change (inject_Z 1) with 1. lra.
Qed.

(** X19: the dashboard shows a dash exactly when no decision has a
    positive confidence; otherwise it shows a number, and when the
    positive confidences all lie between two whole percentages [lo] and
    [hi] (from 0 to 100) so does the average shown. *)
Theorem average_confidence_is_bounded :
  forall (ds : list Decision) (lo hi : Z),
    (0 <= lo)%Z -> (hi <= 100)%Z ->
    (forall d q, In d ds -> confidence_score d = Some q -> 0 < q ->
                 inject_Z lo <= q <= inject_Z hi) ->
    match avgConf ds with
    | None => forall d, In d ds -> is_analyzed d = false
    | Some a =>
        (exists d, In d ds /\ is_analyzed d = true) /\
        exists q, a = Fin q /\ inject_Z lo <= q <= inject_Z hi
    end.
Proof.
  intros ds lo hi Hlo Hhi100 B.
  assert (Hhi : (hi < 10 ^ 21)%Z) by lia.
  unfold avgConf.
  set (an := filter is_analyzed ds).
  assert (F : Forall (fun d => exists q, confidence_score d = Some q
                                         /\ inject_Z lo <= q <= inject_Z hi) an).
  { apply Forall_forall. intros d Hd. unfold an in Hd.
    apply filter_In in Hd. destruct Hd as (Hin & Ha).
    destruct (is_analyzed_pos d Ha) as (q & Hq & Pq).
    exists q. split; [exact Hq|]. apply (B d q); assumption. }
  destruct an as [|d0 an'] eqn:Ean.
  - cbn [List.length]. intros d Hd.
    destruct (is_analyzed d) eqn:A; [|reflexivity].
    assert (I : In d (filter is_analyzed ds)) by (apply filter_In; auto).
    fold an in I. rewrite Ean in I. contradiction.
  - set (n := List.length (d0 :: an')).
    assert (Hn : (0 < Z.of_nat n)%Z) by (unfold n; cbn [List.length]; lia).
    cbn [List.length]. fold n. split.
    + exists d0. apply filter_In. fold an. rewrite Ean. left. reflexivity.
    + destruct (sum_operands (inject_Z lo) (inject_Z hi) (d0 :: an') 0 F)
        as (s & -> & L & U).
      fold n in L, U.
      assert (Nq : 0 < inject_Z (Z.of_nat n)).
      { change 0 with (inject_Z 0). rewrite <- Zlt_Qlt. exact Hn. }
      assert (Z : is_zero (inject_Z (Z.of_nat n)) = false)
        by (apply is_zero_false; lra).
      change (Fin (inject_Z (Z.of_nat (S (List.length an')))))
        with (Fin (inject_Z (Z.of_nat n))).
      rewrite (div_Fin s _ Z). eexists. split; [reflexivity|].
      apply (toFixedQ_between 1 lo hi); [exact Hlo | exact Hhi |].
      split.
      * apply Qle_shift_div_l; [exact Nq|]. lra.
      * apply Qle_shift_div_r; [exact Nq|]. lra.
Qed.

Lemma average_confidence_is_bounded_witness :
  match avgConf sample_decisions with
  | None => forall d, In d sample_decisions -> is_analyzed d = false
  | Some a =>
      (exists d, In d sample_decisions /\ is_analyzed d = true) /\
      exists q, a = Fin q /\ inject_Z 50 <= q <= inject_Z 99
  end.
Proof.
  apply (average_confidence_is_bounded sample_decisions 50 99).
  - lia.
  - lia.
  - intros d q [<-|[<-|[<-|[]]]] H; try discriminate;
      injection H as <-; intros _; split; vm_compute; discriminate.
Defined.

(** ** Escaping *)

Section Escaping.

Local Open Scope string_scope.

Lemma append_assoc (a b c : string) : (a ++ b) ++ c = a ++ (b ++ c).
Proof. induction a as [|x a IH]; simpl; [reflexivity | rewrite IH; reflexivity]. Qed.

Lemma chars_app (a b : string) : chars (a ++ b) = (chars a ++ chars b)%list.
Proof. induction a as [|x a IH]; simpl; [reflexivity | rewrite IH; reflexivity]. Qed.

Lemma replace_all_app c by_ s t :
  replace_all c by_ (s ++ t) = replace_all c by_ s ++ replace_all c by_ t.
Proof.
  induction s as [|a s IH]; simpl; [reflexivity|].
  destruct (Ascii.eqb a c); rewrite IH; [|reflexivity].
  symmetry. apply append_assoc.
Qed.

(** The four passes do not interfere: together they rewrite each
    character on its own. *)
Lemma esc_is_per_character (s : string) : esc (Some s) = esc_chars s.
Proof.
  unfold esc. induction s as [|a s IH]; [reflexivity|].
  cbn [replace_all esc_chars]. unfold esc_char.
  destruct (Ascii.eqb a "&") eqn:A1.
  - rewrite !replace_all_app, IH. reflexivity.
  - cbn [replace_all]. destruct (Ascii.eqb a "<") eqn:A2.
    + rewrite !replace_all_app, IH. reflexivity.
    + cbn [replace_all]. destruct (Ascii.eqb a ">") eqn:A3.
      * rewrite !replace_all_app, IH. reflexivity.
      * cbn [replace_all]. destruct (Ascii.eqb a "034") eqn:A4.
        -- rewrite IH. reflexivity.
        -- rewrite IH. reflexivity.
Qed.

Lemma esc_chars_app (s t : string) :
  esc_chars (s ++ t) = esc_chars s ++ esc_chars t.
Proof.
  induction s as [|a s IH]; simpl; [reflexivity|].
  rewrite IH. symmetry. apply append_assoc.
Qed.

(** The four characters and their entities. *)
Lemma esc_entities :
  esc (Some (String "&" (String "<" (String ">" (String "034" "x")))))
  = "&amp;&lt;&gt;&quot;x" /\
  "034"%char = ascii_of_nat 34.
Proof. split; reflexivity. Qed.

(** X20: escaping distributes over concatenation, so a page assembled
    from escaped pieces is escaped as a whole. *)
Theorem esc_concatenation :
  forall s t : string, esc (Some (s ++ t)) = esc (Some s) ++ esc (Some t).
Proof.
  intros s t. rewrite !esc_is_per_character. apply esc_chars_app.
Qed.

Lemma esc_char_safe a c :
  In c (chars (esc_char a)) -> c <> "<"%char /\ c <> ">"%char /\ c <> "034"%char.
Proof.
  unfold esc_char.
  destruct (Ascii.eqb a "&") eqn:A1;
    [|destruct (Ascii.eqb a "<") eqn:A2;
      [|destruct (Ascii.eqb a ">") eqn:A3;
        [|destruct (Ascii.eqb a "034") eqn:A4]]];
    simpl; intro H;
    repeat match goal with
           | H : _ \/ _ |- _ => destruct H as [H|H]
           | H : False |- _ => contradiction
           end; subst;
    try (repeat split; discriminate).
  apply Ascii.eqb_neq in A2, A3, A4. repeat split; assumption.
Qed.

(** X21: the result of [esc] contains no [<], no [>] and no double
    quote, whatever the text (a missing text gives the empty string). *)
Theorem esc_output_is_inert :
  forall (s : option string) (c : ascii),
    In c (chars (esc s)) ->
    c <> "<"%char /\ c <> ">"%char /\ c <> "034"%char.
Proof.
  intros [s|] c; [|intros []].
  rewrite esc_is_per_character.
  induction s as [|a s IH]; [intros []|].
  cbn [esc_chars]. rewrite chars_app. intro H. apply in_app_or in H.
  destruct H as [H|H]; [apply (esc_char_safe a c H) | apply IH, H].
Qed.

Lemma esc_output_is_inert_witness :
  "&"%char <> "<"%char /\ "&"%char <> ">"%char /\ "&"%char <> "034"%char.
Proof.
  apply (esc_output_is_inert (Some "<") "&"%char).
  left. reflexivity.
Defined.

Lemma esc_char_cases a :
  (a = "&"%char /\ esc_char a = "&amp;") \/
  (a = "<"%char /\ esc_char a = "&lt;") \/
  (a = ">"%char /\ esc_char a = "&gt;") \/
  (a = "034"%char /\ esc_char a = "&quot;") \/
  (special a = false /\ esc_char a = String a EmptyString).
Proof.
  unfold esc_char, special.
  destruct (Ascii.eqb a "&") eqn:A1;
    [apply Ascii.eqb_eq in A1; auto|].
  destruct (Ascii.eqb a "<") eqn:A2;
    [apply Ascii.eqb_eq in A2; auto|].
  destruct (Ascii.eqb a ">") eqn:A3;
    [apply Ascii.eqb_eq in A3; auto 6|].
  destruct (Ascii.eqb a "034") eqn:A4;
    [apply Ascii.eqb_eq in A4; auto 6|].
  auto 8.
Qed.

Lemma special_amp a : special a = false -> a <> "&"%char.
Proof. intros H ->. discriminate. Qed.

Lemma esc_chars_injective (s t : string) :
  esc_chars s = esc_chars t -> s = t.
Proof.
  revert t. induction s as [|a s IH]; intros [|b t] H.
  - reflexivity.
  - exfalso. cbn [esc_chars] in H.
    destruct (esc_char_cases b) as [[_ E]|[[_ E]|[[_ E]|[[_ E]|[_ E]]]]];
      rewrite E in H; discriminate.
  - exfalso. cbn [esc_chars] in H.
    destruct (esc_char_cases a) as [[_ E]|[[_ E]|[[_ E]|[[_ E]|[_ E]]]]];
      rewrite E in H; discriminate.
  - cbn [esc_chars] in H.
    destruct (esc_char_cases a) as [[Ea E]|[[Ea E]|[[Ea E]|[[Ea E]|[Ea E]]]]];
      destruct (esc_char_cases b) as [[Eb F]|[[Eb F]|[[Eb F]|[[Eb F]|[Eb F]]]]];
      rewrite E, F in H; simpl in H;
      try discriminate;
      try (injection H as H; subst; f_equal; apply IH; exact H);
      try (injection H as H0 H; subst; f_equal; apply IH; exact H);
      try (injection H as H0 H; exfalso;
           first [ apply (special_amp _ Eb); symmetry; exact H0
                 | apply (special_amp _ Ea); exact H0 ]).
Qed.

(** X22: [esc] never maps two different texts to the same result: the
    text shown can always be told from the escaped one. *)
Theorem esc_is_injective :
  forall s t : string, esc (Some s) = esc (Some t) -> s = t.
Proof.
  intros s t. rewrite !esc_is_per_character. apply esc_chars_injective.
Qed.

Lemma esc_is_injective_witness : "a<b" = "a<b".
Proof.
  apply (esc_is_injective "a<b" "a<b"). reflexivity.
Defined.

Lemma esc_chars_length s : (String.length s <= String.length (esc_chars s))%nat.
Proof.
  induction s as [|a s IH]; [apply Nat.le_refl|].
  cbn [esc_chars].
  destruct (esc_char_cases a) as [[_ E]|[[_ E]|[[_ E]|[[_ E]|[_ E]]]]];
    rewrite E; simpl; lia.
Qed.

(** X23: [esc] returns a text unchanged exactly when the text contains
    none of the characters [&], [<], [>] and the double quote. *)
Theorem esc_fixed_points :
  forall s : string,
    esc (Some s) = s <-> forall c, In c (chars s) -> special c = false.
Proof.
  intro s. rewrite esc_is_per_character. split.
  - induction s as [|a s IH]; [intros _ c []|].
    cbn [esc_chars chars]. intro H.
    pose proof (esc_chars_length s) as L.
    destruct (esc_char_cases a) as [[Ea E]|[[Ea E]|[[Ea E]|[[Ea E]|[Ea E]]]]];
      rewrite E in H; simpl in H.
    + subst a. injection H as H. apply (f_equal String.length) in H.
      simpl in H. lia.
    + subst a. discriminate.
    + subst a. discriminate.
    + subst a. discriminate.
    + injection H as H. intros c [<-|Hc]; [exact Ea | apply IH; assumption].
  - induction s as [|a s IH]; [reflexivity|].
    intro H. cbn [esc_chars].
    assert (Ha : special a = false) by (apply H; left; reflexivity).
    destruct (esc_char_cases a) as [[Ea E]|[[Ea E]|[[Ea E]|[[Ea E]|[Ea E]]]]];
      try (subst; discriminate).
    rewrite E. simpl. f_equal. apply IH. intros c Hc. apply H. right. exact Hc.
Qed.

End Escaping.

(** ** Navigation *)

(** X24: [goBack] is not a history stack.  After going to a page, one
    step back returns to the page left and a second step back returns to
    the page gone to; going to the same page twice, as [submitDecision]
    does through [viewDecision], makes the step back stay on that page;
    and before any navigation the step back leads to the history. *)
Theorem goBack_alternates :
  forall (page : string) (st : Nav),
    is_empty (CUR_PAGE st) = false -> is_empty page = false ->
    CUR_PAGE (goBack (gotoPage page st)) = CUR_PAGE st /\
    CUR_PAGE (goBack (goBack (gotoPage page st))) = page /\
    CUR_PAGE (goBack (gotoPage page (gotoPage page st))) = page /\
    CUR_PAGE (goBack initial_nav) = "history"%string.
Proof.
  intros page st Hc Hp. unfold goBack, gotoPage. cbn [PREV_PAGE CUR_PAGE].
  rewrite Hc. cbn [PREV_PAGE CUR_PAGE]. rewrite Hp. repeat split.
Qed.

Lemma goBack_alternates_witness :
  CUR_PAGE (goBack (gotoPage "detail" initial_nav)) = CUR_PAGE initial_nav /\
  CUR_PAGE (goBack (goBack (gotoPage "detail" initial_nav)))
  = "detail"%string /\
  CUR_PAGE (goBack (gotoPage "detail" (gotoPage "detail" initial_nav)))
  = "detail"%string /\
  CUR_PAGE (goBack initial_nav) = "history"%string.
Proof.
  apply (goBack_alternates "detail" initial_nav); reflexivity.
Defined.

(** ** From the admin page to the result *)

Lemma saved_nonneg (s : Sliders) :
  (forall k, (0 <= s k)%Z) ->
  nonneg_weights (fun k => Some (inject_Z (s k) / 100)).
Proof.
  intros H k v E. injection E as <-.
  apply Qle_shift_div_l; [reflexivity|].
  rewrite Qmult_0_l. change 0 with (inject_Z 0). rewrite <- Zle_Qle. apply H.
Qed.

(** X25: with weights saved from sliders that are not negative and total
    100, any personality label and at least two options whose cost and
    time are not negative and whose ratings lie between 0 and 10,
    [scoreOptions] returns a result whose confidence
    lies between 50 and 99 and whose sub-scores and totals lie between 0
    and 100. *)
Theorem scoring_with_saved_weights :
  forall (s : Sliders) (stored : option Weights) (options : list Option)
         (personality : option string),
    slider_total s = 100%Z -> (forall k, (0 <= s k)%Z) ->
    (2 <= List.length options)%nat -> Forall in_range options ->
    exists r c,
      scoreOptions options (loadWeights (saveWeights s stored)) personality
      = Return r /\
      confidence r = Fin c /\ 50 <= c <= 99 /\
      Forall percentages (breakdown r).
Proof.
  intros s stored options personality T N L R.
  rewrite (saveWeights_stores s stored T). cbn [loadWeights].
  pose proof (saved_nondegenerate s personality T) as D.
  destruct (confidence_range options _ personality L D)
    as (r & c & E & C & Hc1 & Hc2).
  exists r, c. repeat split; try assumption.
  destruct options as [|o options]; [simpl in L; lia|].
  destruct (breakdown_percentages o options _ personality (saved_nonneg s N) D R)
    as (r' & E' & P).
  rewrite E in E'. injection E' as <-. exact P.
Qed.

Lemma scoring_with_saved_weights_witness :
  exists r c,
    scoreOptions [cheap_slow; dear_fast]
                 (loadWeights (saveWeights sliders_60_40 None))
                 (Some "conservative"%string)
    = Return r /\
    confidence r = Fin c /\ 50 <= c <= 99 /\
    Forall percentages (breakdown r).
Proof.
  apply (scoring_with_saved_weights sliders_60_40 None [cheap_slow; dear_fast]
           (Some "conservative"%string)).
  - reflexivity.
  - intros []; vm_compute; discriminate.
  - simpl. lia.
  - repeat constructor; vm_compute; discriminate.
Defined.

(** ** Better ratings *)

Lemma relative_value c m :
  1 <= m ->
  Math_max [Fin 0; (100 - (Fin c / Fin m) * 100)%js] = Fin (relative c m).
Proof.
  intro Hm.
  assert (Z : is_zero m = false) by (apply is_zero_false; lra).
  rewrite (div_Fin c m Z).
  change (100 - Fin (c / m) * 100)%js with (Fin (100 + - (c / m * 100))).
  apply Math_max_0.
Qed.

Lemma relative_range c m : 0 <= c -> 1 <= m -> 0 <= relative c m <= 100.
Proof.
  intros Hc Hm. unfold relative.
  assert (0 <= c / m) by (apply Qle_shift_div_l; lra).
  destruct (Qle_bool 0 (100 + - (c / m * 100))) eqn:E; [|lra].
  apply Qle_bool_iff in E. lra.
Qed.

Lemma score_total_value (w : key -> number) (mc mt : Q) (o : Option)
      (wc wt wr wp ww : Q) :
  w Cost = Fin wc -> w Time = Fin wt -> w Risk = Fin wr ->
  w Priority = Fin wp -> w Reward = Fin ww ->
  1 <= mc -> 1 <= mt ->
  weighted_total (score w (Fin mc) (Fin mt) o)
  = Fin (toFixedQ 2 (totalQ wc wt wr wp ww mc mt o)).
Proof.
  intros Ec Et Er Ep Ew Hmc Hmt.
  unfold score, prop. cbn [weighted_total].
  rewrite !or_default_Fin, Ec, Et, Er, Ep, Ew.
  rewrite (relative_value _ mc Hmc), (relative_value _ mt Hmt).
  reflexivity.
Qed.

Lemma totalQ_range wc wt wr wp ww mc mt o :
  0 <= wc -> 0 <= wt -> 0 <= wr -> 0 <= wp -> 0 <= ww ->
  wc + wt + wr + wp + ww == 1 ->
  1 <= mc -> 1 <= mt -> in_range o ->
  0 <= totalQ wc wt wr wp ww mc mt o <= 100.
Proof.
  intros Pc Pt Pr Pp Pw S Hmc Hmt (Rc & Rt & Rr & Rp & Rw).
  unfold totalQ.
  pose proof (relative_range (or_default 0 (cost o)) mc
                (or_default_nonneg _ Rc) Hmc).
  pose proof (relative_range (or_default 0 (time_required o)) mt
                (or_default_nonneg _ Rt) Hmt).
  pose proof (or_default_within 0 10 5 (risk_level o) ltac:(lra) Rr).
  pose proof (or_default_within 0 10 5 (priority o) ltac:(lra) Rp).
  pose proof (or_default_within 0 10 5 (reward_potential o) ltac:(lra) Rw).
  apply convex_bound; try assumption; lra.
Qed.

(** X26: with stored weights that are not negative, an option never
    loses by better ratings: of two options in range with the same cost
    and time, the one whose effective risk ([risk_level || 5]) is not
    higher and whose effective priority and reward are not lower has a
    weighted total that is not lower. *)
Theorem better_ratings_never_lower_the_total :
  forall (weights : Weights) (personality : option string) (mc mt : Q)
         (o o' : Option),
    nonneg_weights weights -> degenerate weights personality = false ->
    1 <= mc -> 1 <= mt -> in_range o -> in_range o' ->
    cost o = cost o' -> time_required o = time_required o' ->
    or_default 5 (risk_level o') <= or_default 5 (risk_level o) ->
    or_default 5 (priority o) <= or_default 5 (priority o') ->
    or_default 5 (reward_potential o) <= or_default 5 (reward_potential o') ->
    (weighted_total (score (blend weights personality) (Fin mc) (Fin mt) o)
     <=? weighted_total (score (blend weights personality) (Fin mc) (Fin mt) o'))%js
    = true.
Proof.
  intros weights personality mc mt o o' N D Hmc Hmt R R' Ec Et Hr Hp Hw.
  rewrite (score_total_value _ mc mt o _ _ _ _ _
             (blend_value _ _ Cost D) (blend_value _ _ Time D)
             (blend_value _ _ Risk D) (blend_value _ _ Priority D)
             (blend_value _ _ Reward D) Hmc Hmt).
  rewrite (score_total_value _ mc mt o' _ _ _ _ _
             (blend_value _ _ Cost D) (blend_value _ _ Time D)
             (blend_value _ _ Risk D) (blend_value _ _ Priority D)
             (blend_value _ _ Reward D) Hmc Hmt).
  pose proof (blendQ_range weights personality Cost N D) as [Wc _].
  pose proof (blendQ_range weights personality Time N D) as [Wt _].
  pose proof (blendQ_range weights personality Risk N D) as [Wr _].
  pose proof (blendQ_range weights personality Priority N D) as [Wp _].
  pose proof (blendQ_range weights personality Reward N D) as [Ww _].
  pose proof (blend_sumQ_normalised weights personality D) as S.
  set (wc := blendedQ weights personality Cost / blend_sumQ weights personality) in *.
  set (wt := blendedQ weights personality Time / blend_sumQ weights personality) in *.
  set (wr := blendedQ weights personality Risk / blend_sumQ weights personality) in *.
  set (wp := blendedQ weights personality Priority / blend_sumQ weights personality) in *.
  set (ww := blendedQ weights personality Reward / blend_sumQ weights personality) in *.
  pose proof (totalQ_range wc wt wr wp ww mc mt o Wc Wt Wr Wp Ww S Hmc Hmt R)
    as [L _].
  pose proof (totalQ_range wc wt wr wp ww mc mt o' Wc Wt Wr Wp Ww S Hmc Hmt R')
    as [_ U].
  unfold leb. apply Qle_bool_iff. apply toFixedQ_mono.
  - exact L.
  - unfold totalQ. rewrite Ec, Et.
    set (a := relative (or_default 0 (cost o')) mc * wc).
    set (b := relative (or_default 0 (time_required o')) mt * wt).
    nra.
  - apply Qle_lt_trans with 100; [exact U | reflexivity].
Qed.

Lemma better_ratings_never_lower_the_total_witness :
  (weighted_total (score (blend (loadWeights None) None) (Fin 100) (Fin 100)
                         dear_fast)
   <=? weighted_total (score (blend (loadWeights None) None) (Fin 100)
                             (Fin 100)
                             (mk_option "C" (Some 100) (Some 0) (Some 2)
                                        (Some 8) (Some 5))))%js
  = true.
Proof.
  apply (better_ratings_never_lower_the_total (loadWeights None) None 100 100
           dear_fast
           (mk_option "C" (Some 100) (Some 0) (Some 2) (Some 8) (Some 5))).
  - intros k v H. destruct k; injection H as <-; vm_compute; discriminate.
  - vm_compute. reflexivity.
  - discriminate.
  - discriminate.
  - repeat split; vm_compute; discriminate.
  - repeat split; vm_compute; discriminate.
  - reflexivity.
  - reflexivity.
  - vm_compute. discriminate.
  - vm_compute. discriminate.
  - vm_compute. discriminate.
Defined.
